(** * Strava_NoShoes: the activity aggregation, gear enrichment and GPX
      synthesis of [app/services/strava_service.py]

    A shallow embedding of [StravaService].  The service is a Python
    object whose methods talk to the Strava REST API, keep a few fields
    (tokens, gear cache) and write track files.  Here

    - the fields of the service, the [settings] object, the token file,
      the track directory and the remote end are one record, [world];
      what the file system does when the token file is saved is part of
      it;
    - the remote end is a script: the replies the server will give, in the
      order the requests arrive, and a log of the requests made.  When the
      script is used up the connection fails.  Every finite conversation
      with any server is one such script;
    - a method is a function [world -> outcome A * world]; Python
      exceptions are the [Raise] outcome, and a mutation made before an
      exception stays made;
    - JSON bodies are given already decoded ([json]), one constructor per
      shape the endpoints used here return;
    - [datetime] keeps what Python's comparison and [timestamp()] look at:
      the wall-clock reading and the optional UTC offset, both in
      microseconds.  [float] results of [timestamp()] and [time.time()]
      are kept exact, as integers. *)

From Stdlib Require Import ZArith Lia Ascii String.
From stdpp Require Import base strings gmap list sorting pretty.

Local Open Scope string_scope.
Local Open Scope list_scope.
Local Open Scope Z_scope.

(** ** Dates *)

Record datetime := mk_datetime {
  wall : Z;              (* year .. microsecond fields, as microseconds *)
  tzinfo : option Z      (* utcoffset() in microseconds; None: naive *)
}.

Definition is_aware (d : datetime) : bool :=
  match tzinfo d with Some _ => true | None => false end.

(** [d + timedelta(seconds=s)]: the wall clock moves, tzinfo is kept. *)
Definition add_seconds (d : datetime) (s : Z) : datetime :=
  {| wall := wall d + s * 1000000; tzinfo := tzinfo d |}.

(** [d.timestamp()], in microseconds since the epoch.  A naive value is
    read as local time; [mktime] is the platform's local-to-epoch map. *)
Definition timestamp (mktime : Z -> Z) (d : datetime) : Z :=
  match tzinfo d with
  | Some off => wall d - off
  | None => mktime (wall d)
  end.

(** [int(d.timestamp())]: whole seconds, truncated toward zero. *)
Definition int_timestamp (mktime : Z -> Z) (d : datetime) : Z :=
  Z.quot (timestamp mktime d) 1000000.

(** Python's ordering of two datetimes: aware values by their UTC instant,
    naive values by their wall clock, and no answer (a TypeError) for one
    of each. *)
Definition dt_compare (a b : datetime) : option comparison :=
  match tzinfo a, tzinfo b with
  | Some oa, Some ob => Some (Z.compare (wall a - oa) (wall b - ob))
  | None, None => Some (Z.compare (wall a) (wall b))
  | _, _ => None
  end.

(** [a > b] *)
Definition dt_gt (a b : datetime) : option bool :=
  match dt_compare a b with
  | Some Gt => Some true
  | Some _ => Some false
  | None => None
  end.

(** [a < b] *)
Definition dt_lt (a b : datetime) : option bool := dt_gt b a.

(** ** Models of [app/models/strava.py] *)

Module Activity.
Record t := mk {
  id : Z;
  name : string;
  sport_type : string;
  start_date : datetime;
  gear_id : option string;
  gear_name : option string
}.
Definition set_gear_name (a : t) (n : option string) : t :=
  {| id := id a; name := name a; sport_type := sport_type a;
     start_date := start_date a; gear_id := gear_id a; gear_name := n |}.
End Activity.

Module Gear.
Record t := mk { id : string; name : string }.
End Gear.

Module ActivityFilter.
Record t := mk {
  before : option datetime;
  after : option datetime;
  page : Z;
  per_page : Z;
  activity_type : option string;
  has_gear : option bool;
  gear_id : option string
}.
(** The field constraints [ge=1] and [ge=1, le=200]. *)
Definition valid (f : t) : bool :=
  (1 <=? page f) && (1 <=? per_page f) && (per_page f <=? 200).
End ActivityFilter.

(** A stream bundle with [key_by_type=true]: each stream, when its key is
    present, by its [data] array.  The samples are only carried through
    (coordinates, altitudes) or added to the start time (seconds); they
    are given as integers. *)
Module Streams.
Record t := mk {
  latlng : option (list (Z * Z));
  time : option (list Z);
  altitude : option (list Z);
  heartrate : option (list Z);
  cadence : option (list Z)
}.
End Streams.

(** ** Python truthiness *)

Definition truthy_str (s : string) : bool :=
  match s with EmptyString => false | _ => true end.

Definition truthy_ostr (o : option string) : bool :=
  match o with Some s => truthy_str s | None => false end.

Definition truthy_int (z : Z) : bool := negb (z =? 0).

(** ** Exceptions and outcomes *)

Inductive exn :=
| StravaAPIError (msg : string)
| HTTPStatusError (code : Z) (text : string)
| RequestError (msg : string)
| JSONDecodeError
| KeyError (key : string)
| TypeError
| ValidationError
| FileNotFoundError
| OSError (msg : string).     (* any other error of the file system *)

Inductive outcome (A : Type) :=
| Ok (a : A)
| Raise (e : exn)
| Diverge.                 (* the loop budget of the model ran out *)
Arguments Ok {A} a.
Arguments Raise {A} e.
Arguments Diverge {A}.

Definition is_strava_error (e : exn) : bool :=
  match e with StravaAPIError _ => true | _ => false end.

(** ** The track document built by [download_gpx]

    One track with one segment; a point's [extensions] holds the
    TrackPointExtension elements appended to it, each with the text of its
    [hr] and [cad] children. *)

Record TrackPointExtension := mk_tpx {
  hr : option string;
  cad : option string
}.

Record GPXTrackPoint := mk_point {
  latitude : Z;
  longitude : Z;
  elevation : option Z;
  time : option datetime;
  extensions : list TrackPointExtension
}.

Record GPX := mk_gpx {
  gpx_name : string;
  gpx_description : string;
  points : list GPXTrackPoint
}.

(** ** The remote end *)

Inductive json :=
| JActivities (l : list Activity.t)          (* an array of activities *)
| JActivity (a : Activity.t)
| JGear (g : Gear.t)
| JStreams (s : Streams.t)
| JTokens (access refresh : option string) (expires : option Z).

Inductive reply :=
| Response (status_code : Z) (text : string) (body : option json)
| ConnectError (msg : string).

Inductive pvalue := PInt (z : Z) | PStr (s : string).

Record request := mk_request {
  method : string;
  url : string;
  bearer : option string;                   (* the Authorization header *)
  params : list (string * pvalue)           (* query, or form data of a POST *)
}.

(** ** The world *)

(** The fields of [app/config.py] that the service uses.  The service
    copies the base URL, the client id, the client secret and the token
    file path when it is made and never assigns them again; they are read
    here from the settings. *)
Record Settings := mk_settings {
  strava_client_id : string;
  strava_client_secret : string;
  strava_access_token : string;
  strava_refresh_token : string;
  strava_token_expires_at : Z;
  strava_token_file : string;
  strava_api_base_url : string;
  gpx_storage_path : string
}.

Definition set_strava_access_token (a : string) (s : Settings) : Settings :=
  mk_settings (strava_client_id s) (strava_client_secret s) a
    (strava_refresh_token s) (strava_token_expires_at s) (strava_token_file s)
    (strava_api_base_url s) (gpx_storage_path s).

Definition set_strava_refresh_token (r : string) (s : Settings) : Settings :=
  mk_settings (strava_client_id s) (strava_client_secret s)
    (strava_access_token s) r (strava_token_expires_at s) (strava_token_file s)
    (strava_api_base_url s) (gpx_storage_path s).

Definition set_strava_token_expires_at (e : Z) (s : Settings) : Settings :=
  mk_settings (strava_client_id s) (strava_client_secret s)
    (strava_access_token s) (strava_refresh_token s) e (strava_token_file s)
    (strava_api_base_url s) (gpx_storage_path s).

(** What is in the token file: text that [json.load] rejects or that is
    no object, or an object, given by the three keys it may have. *)
Inductive token_content :=
| Unreadable
| TokenData (access refresh : option string) (expires : option Z).

(** What the file system does with one [_save_tokens]. *)
Inductive disk_result :=
| MakedirsError (msg : string)  (* os.makedirs raises: no permission, a
                                   file in the way *)
| OpenError                     (* open(.., "w") raises: the file stays *)
| DumpError                     (* json.dump raises part-way: the file is
                                   left cut short *)
| Written.

Record world := mk_world {
  settings : Settings;
  access_token : string;
  refresh_token : string;
  expires_at : Z;
  _gear_cache : gmap string string;
  token_file : option token_content;       (* the token file; None: no file *)
  disk : nat -> disk_result;  (* the file system, after so many exchanges *)
  files : gmap string GPX;                 (* the track files on disk *)
  clock : nat -> Z;        (* time.time() after so many exchanges, in
                              seconds rounded up *)
  mktime : Z -> Z;         (* local wall clock to epoch, microseconds *)
  set_order : gset string -> list string;  (* iteration order of a set *)
  script : list reply;     (* the replies still to come *)
  log : list request       (* the requests made, oldest first *)
}.

Definition with_settings (s : Settings) (w : world) : world :=
  mk_world s (access_token w) (refresh_token w) (expires_at w) (_gear_cache w)
           (token_file w) (disk w) (files w) (clock w) (mktime w) (set_order w)
           (script w) (log w).

Definition with_tokens (a r : string) (e : Z) (w : world) : world :=
  mk_world (settings w) a r e (_gear_cache w) (token_file w) (disk w) (files w)
           (clock w) (mktime w) (set_order w) (script w) (log w).

Definition with_gear_cache (c : gmap string string) (w : world) : world :=
  mk_world (settings w) (access_token w) (refresh_token w) (expires_at w) c
           (token_file w) (disk w) (files w) (clock w) (mktime w) (set_order w)
           (script w) (log w).

Definition with_token_file (t : option token_content) (w : world) : world :=
  mk_world (settings w) (access_token w) (refresh_token w) (expires_at w)
           (_gear_cache w) t (disk w) (files w) (clock w) (mktime w)
           (set_order w) (script w) (log w).

Definition with_files (f : gmap string GPX) (w : world) : world :=
  mk_world (settings w) (access_token w) (refresh_token w) (expires_at w)
           (_gear_cache w) (token_file w) (disk w) f (clock w) (mktime w)
           (set_order w) (script w) (log w).

Definition with_remote (s : list reply) (l : list request) (w : world) : world :=
  mk_world (settings w) (access_token w) (refresh_token w) (expires_at w)
           (_gear_cache w) (token_file w) (disk w) (files w) (clock w)
           (mktime w) (set_order w) s l.

(** ** The monad of service methods *)

Definition M (A : Type) : Type := world -> outcome A * world.

Definition ret {A} (a : A) : M A := fun w => (Ok a, w).
Definition raise {A} (e : exn) : M A := fun w => (Raise e, w).
Definition diverge {A} : M A := fun w => (Diverge, w).

Definition bind {A B} (m : M A) (k : A -> M B) : M B :=
  fun w =>
    match m w with
    | (Ok a, w') => k a w'
    | (Raise e, w') => (Raise e, w')
    | (Diverge, w') => (Diverge, w')
    end.

(** [try: m  except ... as e: h e].  The handler [h] re-raises what its
    except clauses do not name; what the handler itself raises is not
    handled again. *)
Definition try_except {A} (m : M A) (h : exn -> M A) : M A :=
  fun w =>
    match m w with
    | (Raise e, w') => h e w'
    | r => r
    end.

Definition gets {A} (f : world -> A) : M A := fun w => (Ok (f w), w).
Definition modify (f : world -> world) : M unit := fun w => (Ok tt, f w).
Definition lift {A} (o : outcome A) : M A := fun w => (o, w).

Declare Scope m_scope.
Delimit Scope m_scope with M.
Notation "x <- c ;; k" := (bind c (fun x => k))
  (at level 100, c at next level, right associativity) : m_scope.
Notation "c ;;; k" := (bind c (fun _ => k))
  (at level 100, right associativity) : m_scope.
Local Open Scope m_scope.

(** [for x in l: f x] *)
Fixpoint for_each {A} (l : list A) (f : A -> M unit) : M unit :=
  match l with
  | [] => ret tt
  | x :: l' => f x ;;; for_each l' f
  end.

(** A comprehension [[f x for x in l]] whose [f] may raise. *)
Fixpoint map_outcome {A B} (f : A -> outcome B) (l : list A) : outcome (list B) :=
  match l with
  | [] => Ok []
  | x :: l' =>
      match f x with
      | Ok y =>
          match map_outcome f l' with
          | Ok ys => Ok (y :: ys)
          | Raise e => Raise e
          | Diverge => Diverge
          end
      | Raise e => Raise e
      | Diverge => Diverge
      end
  end.

(** A comprehension [[x for x in l if p x]] whose test may raise. *)
Fixpoint filter_outcome {A} (p : A -> option bool) (l : list A) : outcome (list A) :=
  match l with
  | [] => Ok []
  | x :: l' =>
      match p x with
      | None => Raise TypeError
      | Some b =>
          match filter_outcome p l' with
          | Ok ys => Ok (if b then x :: ys else ys)
          | Raise e => Raise e
          | Diverge => Diverge
          end
      end
  end.

(** ** Remote Client *)

(** [time.time()] *)
Definition time_time : M Z := gets (fun w => clock w (length (log w))).

(** One [client.request] or [client.post]: the request is logged and the
    next reply of the script comes back; a connection error, or a used-up
    script, is httpx.RequestError. *)
Definition client_request (rq : request) : M (Z * string * option json) :=
  fun w =>
    match script w with
    | [] => (Raise (RequestError "connection failed"), with_remote [] (log w ++ [rq]) w)
    | Response c t b :: s => (Ok (c, t, b), with_remote s (log w ++ [rq]) w)
    | ConnectError m :: s => (Raise (RequestError m), with_remote s (log w ++ [rq]) w)
    end.

(** [response.raise_for_status()]: anything but 2xx raises. *)
Definition raise_for_status (response : Z * string * option json) : M unit :=
  let '(c, t, _) := response in
  if (200 <=? c) && (c <=? 299) then ret tt else raise (HTTPStatusError c t).

(** [response.json()] *)
Definition response_json (response : Z * string * option json) : M json :=
  match response with
  | (_, _, Some j) => ret j
  | (_, _, None) => raise JSONDecodeError
  end.

(** The keys of a decoded body when it is an object; [None] for an array. *)
Definition opt_key {A} (k : string) (o : option A) : list string :=
  match o with Some _ => [k] | None => [] end.

Definition json_keys (j : json) : option (list string) :=
  match j with
  | JActivities _ => None
  | JActivity _ =>
      Some ["id"; "name"; "sport_type"; "start_date"; "gear_id"; "gear_name"]
  | JGear _ => Some ["id"; "name"]
  | JStreams s =>
      Some (opt_key "latlng" (Streams.latlng s) ++ opt_key "time" (Streams.time s)
            ++ opt_key "altitude" (Streams.altitude s)
            ++ opt_key "heartrate" (Streams.heartrate s)
            ++ opt_key "cadence" (Streams.cadence s))
  | JTokens a r e =>
      Some (opt_key "access_token" a ++ opt_key "refresh_token" r
            ++ opt_key "expires_at" e)
  end.

(** [token_data[key]] for the three keys read after a refresh. *)
Definition token_field {A} (j : json) (key : string)
    (sel : option string -> option string -> option Z -> option A) : M A :=
  match j with
  | JTokens a r e =>
      match sel a r e with Some v => ret v | None => raise (KeyError key) end
  | JActivities _ => raise TypeError
  | _ => raise (KeyError key)
  end.

Definition token_url : string := "https://www.strava.com/oauth/token".

Fixpoint has_slash (s : string) : bool :=
  match s with
  | EmptyString => false
  | String c s' => Ascii.eqb c "/" || has_slash s'
  end.

(** [p[:p.rfind('/') + 1]] *)
Fixpoint upto_last_slash (p : string) : string :=
  match p with
  | EmptyString => EmptyString
  | String c p' => if has_slash p then String c (upto_last_slash p') else EmptyString
  end.

Fixpoint all_slashes (s : string) : bool :=
  match s with
  | EmptyString => true
  | String c s' => Ascii.eqb c "/" && all_slashes s'
  end.

(** [s.rstrip('/')] *)
Fixpoint rstrip_slash (s : string) : string :=
  match s with
  | EmptyString => EmptyString
  | String c s' => if all_slashes s then EmptyString else String c (rstrip_slash s')
  end.

(** [os.path.dirname(p)] *)
Definition dirname (p : string) : string :=
  let head := upto_last_slash p in
  if truthy_str head && negb (all_slashes head) then rstrip_slash head else head.

(** [_save_tokens].  [os.makedirs] stands before the [try]: what it
    raises leaves the method, and the empty directory name of a token
    file given without a directory makes it raise FileNotFoundError.
    What [open] or [json.dump] raise is printed and dropped. *)
Definition _save_tokens : M unit :=
  path <- gets (fun w => strava_token_file (settings w)) ;;
  fs <- gets (fun w => disk w (length (log w))) ;;
  (if negb (truthy_str (dirname path)) then raise FileNotFoundError
   else match fs with
        | MakedirsError msg => raise (OSError msg)
        | _ => ret tt
        end) ;;;
  match fs with
  | Written =>
      modify (fun w => with_token_file
                         (Some (TokenData (Some (access_token w))
                                  (Some (refresh_token w))
                                  (Some (expires_at w)))) w)
  | DumpError => modify (with_token_file (Some Unreadable))
  | _ => ret tt
  end.

Definition _refresh_access_token : M bool :=
  rt <- gets refresh_token ;;
  if negb (truthy_str rt) then ret false else
  s <- gets settings ;;
  let data := [("client_id", PStr (strava_client_id s));
               ("client_secret", PStr (strava_client_secret s));
               ("refresh_token", PStr rt);
               ("grant_type", PStr "refresh_token")] in
  try_except
    (response <- client_request (mk_request "POST" token_url None data) ;;
     raise_for_status response ;;;
     token_data <- response_json response ;;
     a <- token_field token_data "access_token" (fun a _ _ => a) ;;
     modify (fun w => with_tokens a (refresh_token w) (expires_at w) w) ;;;
     r <- token_field token_data "refresh_token" (fun _ r _ => r) ;;
     modify (fun w => with_tokens (access_token w) r (expires_at w) w) ;;;
     e <- token_field token_data "expires_at" (fun _ _ e => e) ;;
     modify (fun w => with_tokens (access_token w) (refresh_token w) e w) ;;;
     modify (fun w => with_settings
                        (set_strava_access_token (access_token w) (settings w)) w) ;;;
     modify (fun w => with_settings
                        (set_strava_refresh_token (refresh_token w) (settings w)) w) ;;;
     modify (fun w => with_settings
                        (set_strava_token_expires_at (expires_at w) (settings w)) w) ;;;
     _save_tokens ;;;
     ret true)
    (fun e =>
       match e with
       | HTTPStatusError _ _ | RequestError _ | KeyError _ => ret false
       | _ => raise e
       end).

Definition _ensure_valid_token : M unit :=
  a <- gets access_token ;;
  e <- gets expires_at ;;
  now <- time_time ;;
  if negb (truthy_str a) || negb (truthy_int e) || (e <? now + 3600)
  then _refresh_access_token ;;; ret tt
  else ret tt.

(** The headers, by the bearer token they carry. *)
Definition _get_headers : M string :=
  _ensure_valid_token ;;;
  a <- gets access_token ;;
  if negb (truthy_str a)
  then raise (StravaAPIError "Access token not available. Please authenticate first.")
  else ret a.

(** [endpoint.lstrip('/')] *)
Fixpoint lstrip_slash (s : string) : string :=
  match s with
  | String "/"%char s' => lstrip_slash s'
  | _ => s
  end.

Definition _make_request (method endpoint : string)
    (params : list (string * pvalue)) : M json :=
  base_url <- gets (fun w => strava_api_base_url (settings w)) ;;
  let url := base_url +:+ "/" +:+ lstrip_slash endpoint in
  headers <- _get_headers ;;
  try_except
    (response <- client_request (mk_request method url (Some headers) params) ;;
     raise_for_status response ;;;
     response_json response)
    (fun e =>
       match e with
       | HTTPStatusError code text =>
           if code =? 401 then
             refreshed <- _refresh_access_token ;;
             if refreshed then
               headers <- _get_headers ;;
               response <- client_request (mk_request method url (Some headers) params) ;;
               raise_for_status response ;;;
               response_json response
             else raise (StravaAPIError "Authentication failed. Please re-authenticate.")
           else raise (StravaAPIError
                         ("API request failed: " +:+ pretty code +:+ " - " +:+ text))
       | RequestError msg => raise (StravaAPIError ("Request error: " +:+ msg))
       | _ => raise e
       end).

(** ** Parsing bodies into models *)

(** The [Activity] constructor on a body: an activity object parses to itself, another
    object misses required fields, and an array is no mapping. *)
Definition parse_activity (j : json) : outcome Activity.t :=
  match j with
  | JActivity a => Ok a
  | JActivities _ => Raise TypeError
  | _ => Raise ValidationError
  end.

(** The [Gear] constructor on [gear_data]. *)
Definition parse_gear (j : json) : outcome Gear.t :=
  match j with
  | JGear g => Ok g
  | JActivities _ => Raise TypeError
  | _ => Raise ValidationError
  end.

(** What iterating over a body yields: the activity objects of an array,
    or the keys (strings, here [None]) of an object. *)
Definition json_items (j : json) : list (option Activity.t) :=
  match j with
  | JActivities l => Some <$> l
  | _ => (fun _ => None) <$> default [] (json_keys j)
  end.

(** The [Activity] constructor on one item of [all_activities_data]. *)
Definition parse_item (x : option Activity.t) : outcome Activity.t :=
  match x with
  | Some a => Ok a
  | None => Raise TypeError
  end.

(** ** Gear Resolver *)

Definition get_gear_by_id (gear_id : string) : M (option Gear.t) :=
  try_except
    (gear_data <- _make_request "GET" ("/gear/" +:+ gear_id) [] ;;
     g <- lift (parse_gear gear_data) ;;
     ret (Some g))
    (fun _ => ret None).

(** The first loop of [_populate_gear_names_for_activities]: the gear ids
    that are set, non-empty and not in the cache. *)
Definition missing_gear_ids (cache : gmap string string)
    (activities : list Activity.t) : gset string :=
  foldl (fun acc a =>
           match Activity.gear_id a with
           | Some g =>
               if truthy_str g && bool_decide (cache !! g = None)
               then acc ∪ {[ g ]} else acc
           | None => acc
           end) ∅ activities.

(** The last loop: a name from the cache is written onto the activity. *)
Definition apply_gear_name (cache : gmap string string) (a : Activity.t) : Activity.t :=
  match Activity.gear_id a with
  | Some g =>
      if truthy_str g then
        match cache !! g with
        | Some n => Activity.set_gear_name a (Some n)
        | None => a
        end
      else a
  | None => a
  end.

Definition fetch_and_cache_gear (gear_id : string) : M unit :=
  gear <- get_gear_by_id gear_id ;;
  match gear with
  | Some g =>
      modify (fun w => with_gear_cache
                         (<[Gear.id g := Gear.name g]> (_gear_cache w)) w)
  | None => ret tt
  end.

Definition _populate_gear_names_for_activities
    (activities : list Activity.t) : M (list Activity.t) :=
  cache <- gets _gear_cache ;;
  let missing := missing_gear_ids cache activities in
  order <- gets set_order ;;
  (if bool_decide (missing = ∅) then ret tt
   else for_each (order missing) fetch_and_cache_gear) ;;;
  cache <- gets _gear_cache ;;
  ret (apply_gear_name cache <$> activities).

(** ** Activity Aggregator *)

(** [params[k] = v] on a dict: in place when the key is there, else at the
    end. *)
Fixpoint dict_set (k : string) (v : pvalue) (d : list (string * pvalue))
    : list (string * pvalue) :=
  match d with
  | [] => [(k, v)]
  | (k', v') :: d' =>
      if String.eqb k k' then (k, v) :: d' else (k', v') :: dict_set k v d'
  end.

Definition build_params (mk : Z -> Z) (activity_filter : option ActivityFilter.t)
    : list (string * pvalue) :=
  match activity_filter with
  | None => []
  | Some f =>
      let p := [] in
      let p := match ActivityFilter.before f with
               | Some b => dict_set "before" (PInt (int_timestamp mk b)) p
               | None => p
               end in
      let p := match ActivityFilter.after f with
               | Some a => dict_set "after" (PInt (int_timestamp mk a)) p
               | None => p
               end in
      let p := dict_set "page" (PInt (ActivityFilter.page f)) p in
      dict_set "per_page" (PInt (ActivityFilter.per_page f)) p
  end.

(** The [while True] loop of [get_activities]; [fuel] bounds the number of
    rounds. *)
Fixpoint page_loop (fuel : nat) (params : list (string * pvalue))
    (current_page : Z) (all_activities_data : list (option Activity.t))
    : M (list (option Activity.t)) :=
  match fuel with
  | O => diverge
  | S fuel' =>
      let params := dict_set "page" (PInt current_page) params in
      data <- _make_request "GET" "/athlete/activities" params ;;
      let data := json_items data in
      match data with
      | [] => ret all_activities_data
      | _ =>
          let all_activities_data := all_activities_data ++ data in
          if (length data <? 200)%nat then ret all_activities_data
          else page_loop fuel' params (current_page + 1) all_activities_data
      end
  end.

(** Both branches of [if all_pages]. *)
Definition fetch_activities_data (params : list (string * pvalue))
    (all_pages : bool) : M (list (option Activity.t)) :=
  if all_pages then
    let params := dict_set "per_page" (PInt 200) params in
    fuel <- gets (fun w => S (length (script w))) ;;
    page_loop fuel params 1 []
  else
    data <- _make_request "GET" "/athlete/activities" params ;;
    ret (json_items data).

(** The defensive re-check of [after]. *)
Definition after_recheck (mk : Z -> Z) (after : datetime)
    (activities : list Activity.t) : outcome (list Activity.t) :=
  if negb (is_aware after)
     && match activities with
        | [] => false
        | a0 :: _ => is_aware (Activity.start_date a0)
        end
  then
    let cutoff := timestamp mk after in
    Ok (filter (fun a => cutoff < timestamp mk (Activity.start_date a)) activities)
  else
    filter_outcome (fun a => dt_gt (Activity.start_date a) after) activities.

(** The block under [# Apply additional filters]. *)
Definition apply_filters (mk : Z -> Z) (f : ActivityFilter.t)
    (activities : list Activity.t) : outcome (list Activity.t) :=
  let activities :=
    match ActivityFilter.activity_type f with
    | Some t =>
        if truthy_str t
        then filter (fun a => Activity.sport_type a = t) activities
        else activities
    | None => activities
    end in
  let activities :=
    match ActivityFilter.has_gear f with
    | Some true => filter (fun a => Activity.gear_id a ≠ None) activities
    | Some false => filter (fun a => Activity.gear_id a = None) activities
    | None => activities
    end in
  let activities :=
    match ActivityFilter.gear_id f with
    | Some g =>
        if truthy_str g
        then filter (fun a => Activity.gear_id a = Some g) activities
        else activities
    | None => activities
    end in
  match ActivityFilter.after f with
  | Some after => after_recheck mk after activities
  | None => Ok activities
  end.

(** [activities.sort(key=lambda x: x.start_date, reverse=True)].  The sort
    is stable and compares keys with [<]; a list holding a naive and an
    aware key makes it compare the two, which raises. *)
Fixpoint insert_desc (x : Activity.t) (l : list Activity.t) : list Activity.t :=
  match l with
  | [] => [x]
  | y :: l' =>
      match dt_lt (Activity.start_date x) (Activity.start_date y) with
      | Some true => y :: insert_desc x l'
      | _ => x :: y :: l'
      end
  end.

Definition sort_desc (l : list Activity.t) : list Activity.t :=
  foldr insert_desc [] l.

Definition mixed_awareness (l : list Activity.t) : bool :=
  existsb (fun a => is_aware (Activity.start_date a)) l
  && existsb (fun a => negb (is_aware (Activity.start_date a))) l.

Definition sort_by_start_date_desc (l : list Activity.t) : outcome (list Activity.t) :=
  if mixed_awareness l then Raise TypeError else Ok (sort_desc l).

(** The pure end of [get_activities]: the local filters, then the sort. *)
Definition filter_and_sort (mk : Z -> Z) (activity_filter : option ActivityFilter.t)
    (activities : list Activity.t) : outcome (list Activity.t) :=
  match match activity_filter with
        | Some f => apply_filters mk f activities
        | None => Ok activities
        end with
  | Ok activities => sort_by_start_date_desc activities
  | Raise e => Raise e
  | Diverge => Diverge
  end.

(** [get_activities] from the comprehension that builds [activities] on:
    parse, enrich with gear names, filter, sort. *)
Definition enrich_filter_sort (mk : Z -> Z)
    (activity_filter : option ActivityFilter.t)
    (all_activities_data : list (option Activity.t)) : M (list Activity.t) :=
  activities <- lift (map_outcome parse_item all_activities_data) ;;
  activities <- match activities with
                | [] => ret activities
                | _ => _populate_gear_names_for_activities activities
                end ;;
  lift (filter_and_sort mk activity_filter activities).

Definition get_activities (activity_filter : option ActivityFilter.t)
    (all_pages : bool) : M (list Activity.t) :=
  mk <- gets mktime ;;
  let params := build_params mk activity_filter in
  all_activities_data <- fetch_activities_data params all_pages ;;
  enrich_filter_sort mk activity_filter all_activities_data.

Definition get_activity_by_id (activity_id : Z) : M Activity.t :=
  data <- _make_request "GET" ("/activities/" +:+ pretty activity_id) [] ;;
  lift (parse_activity data).

(** [ActivityFilter(activity_type=.., per_page=..)]: the other fields take
    their defaults, and the constraints are checked. *)
Definition new_ActivityFilter (activity_type : option string) (per_page : Z)
    : outcome ActivityFilter.t :=
  let f := ActivityFilter.mk None None 1 per_page activity_type None None in
  if ActivityFilter.valid f then Ok f else Raise ValidationError.

Definition get_running_activities (limit : option Z) : M (list Activity.t) :=
  let limit_set := match limit with Some n => truthy_int n | None => false end in
  let n := default 0 limit in
  if limit_set && (n <=? 200) then
    activity_filter <- lift (new_ActivityFilter (Some "Run") n) ;;
    get_activities (Some activity_filter) false
  else
    activity_filter <- lift (new_ActivityFilter (Some "Run") 30) ;;
    activities <- get_activities (Some activity_filter) true ;;
    if limit_set && (n <? Z.of_nat (length activities))
    then ret (take (Z.to_nat n) activities)
    else ret activities.

(** ** Track Synthesizer *)

Definition streams_keys : string := "latlng,altitude,time,heartrate,cadence,temp".

Definition get_activity_streams (activity_id : Z) : M json :=
  let endpoint := "/activities/" +:+ pretty activity_id +:+ "/streams" in
  _make_request "GET" endpoint
    [("keys", PStr streams_keys); ("key_by_type", PStr "true")].

(** [s.replace(c, d)] for single characters. *)
Fixpoint replace_char (c d : ascii) (s : string) : string :=
  match s with
  | EmptyString => EmptyString
  | String x s' => String (if Ascii.eqb x c then d else x) (replace_char c d s')
  end.

Definition safe_name (activity_name : string) : string :=
  replace_char "\" "_" (replace_char "/" "_" (replace_char " " "_" activity_name)).

Fixpoint ends_with_slash (s : string) : bool :=
  match s with
  | EmptyString => false
  | String c EmptyString => Ascii.eqb c "/"
  | String _ s' => ends_with_slash s'
  end.

(** [os.path.join(a, b)] *)
Definition path_join (a b : string) : string :=
  match b with
  | String "/"%char _ => b
  | _ =>
      match a with
      | EmptyString => b
      | _ => if ends_with_slash a then a +:+ b else a +:+ "/" +:+ b
      end
  end.

(** The path [download_gpx] derives from the directory and the name. *)
Definition gpx_file_path (save_path activity_name : string) : string :=
  path_join save_path (safe_name activity_name +:+ ".gpx").

(** [streams.get(key, {}).get("data", [])] *)
Definition stream_data {A} (o : option (list A)) : list A := default [] o.

(** The body of the loop [for i in range(len(latlngs))]. *)
Definition track_point (start_time : datetime)
    (times altitudes heartrates cadences : list Z)
    (i : nat) (latlng : Z * Z) : GPXTrackPoint :=
  let '(lat, lon) := latlng in
  let point_time :=
    if (i <? length times)%nat
    then Some (add_seconds start_time (nth i times 0))
    else None in
  let elevation :=
    if (i <? length altitudes)%nat then Some (nth i altitudes 0) else None in
  let extensions :=
    if (i <? length heartrates)%nat || (i <? length cadences)%nat then
      [ mk_tpx
          (if (i <? length heartrates)%nat
           then Some (pretty (nth i heartrates 0)) else None)
          (if (i <? length cadences)%nat
           then Some (pretty (nth i cadences 0)) else None) ]
    else [] in
  mk_point lat lon elevation point_time extensions.

Definition build_points (start_time : datetime) (latlngs : list (Z * Z))
    (times altitudes heartrates cadences : list Z) : list GPXTrackPoint :=
  imap (track_point start_time times altitudes heartrates cadences) latlngs.

(** The stream bundle in a body; an array or another object has no
    ["latlng"] member. *)
Definition json_streams (j : json) : Streams.t :=
  match j with
  | JStreams s => s
  | _ => Streams.mk None None None None None
  end.

Definition no_gps_data (activity_id : Z) : exn :=
  StravaAPIError ("No GPS data (latlng stream) available for activity "
                  +:+ pretty activity_id).

(** [if not x: x = fallback] for an optional string argument. *)
Definition or_default (x : option string) (fallback : string) : string :=
  match x with
  | Some v => if truthy_str v then v else fallback
  | None => fallback
  end.

(** [download_gpx].  The directory is taken to exist (the [mkdir] call)
    and the track file to be written once it is opened, and the file is
    kept as the document that is serialised: the text that [gpx.to_xml()]
    and the namespace replacements make of it is the library's and is not
    modelled. *)
Definition download_gpx (activity_id : Z) (save_path : option string)
    (activity_name : option string) : M string :=
  default_path <- gets (fun w => gpx_storage_path (settings w)) ;;
  let save_path := or_default save_path default_path in
  activity <- get_activity_by_id activity_id ;;
  let activity_name := or_default activity_name (Activity.name activity) in
  let file_path := gpx_file_path save_path activity_name in
  cached <- gets (fun w => bool_decide (is_Some (files w !! file_path))) ;;
  if (cached : bool) then ret file_path else
  streams <- get_activity_streams activity_id ;;
  let streams := json_streams streams in
  match Streams.latlng streams with
  | None => raise (no_gps_data activity_id)
  | Some latlngs =>
      let gpx :=
        mk_gpx activity_name ("Strava Activity " +:+ pretty activity_id)
          (build_points (Activity.start_date activity) latlngs
             (stream_data (Streams.time streams))
             (stream_data (Streams.altitude streams))
             (stream_data (Streams.heartrate streams))
             (stream_data (Streams.cadence streams))) in
      modify (fun w => with_files (<[file_path := gpx]> (files w)) w) ;;;
      ret file_path
  end.

(** * Vocabulary of the properties, and scenarios *)

(** [sound R m]: every run of [m] relates the world before to the world
    after by [R], and never exhausts a loop budget. *)
Definition sound (R : relation world) {A} (m : M A) : Prop :=
  forall w, R w (m w).2 /\ (m w).1 <> Diverge.

(** The settings that no method assigns to. *)
Definition config (s : Settings) : string * string * string * string * string :=
  (strava_client_id s, strava_client_secret s, strava_token_file s,
   strava_api_base_url s, gpx_storage_path s).

(** A run that only talks to the remote end: replies are taken from the
    front of the script, requests satisfying [P] are added to the log, and
    the settings other than the tokens, the files, the gear cache, the
    clock and the orders stay. *)
Record io_step (P : request -> Prop) (w w' : world) : Prop := mk_io_step {
  io_settings : config (settings w') = config (settings w);
  io_files : files w' = files w;
  io_cache : _gear_cache w' = _gear_cache w;
  io_clock : clock w' = clock w;
  io_mktime : mktime w' = mktime w;
  io_order : set_order w' = set_order w;
  io_script : exists used, script w = used ++ script w';
  io_log : exists new, log w' = log w ++ new /\ Forall P new
}.

Definition is_refresh (rq : request) : Prop :=
  method rq = "POST" /\ url rq = token_url.

(** The requests [_make_request] may send: refreshes, and the call asked
    for. *)
Definition is_call (meth endpoint : string) (ps : list (string * pvalue))
    (base_url : string) (rq : request) : Prop :=
  method rq = meth
  /\ url rq = base_url +:+ "/" +:+ lstrip_slash endpoint
  /\ params rq = ps.

(** The access token is set and does not come within an hour of expiry
    whatever the clock shows during the run. *)
Definition token_good (w : world) : Prop :=
  truthy_str (access_token w) = true
  /\ expires_at w <> 0
  /\ forall n, clock w n + 3600 <= expires_at w.

(** The request [_make_request] sends for a call. *)
Definition call_request (w : world) (method endpoint : string)
    (params : list (string * pvalue)) : request :=
  mk_request method
    (strava_api_base_url (settings w) +:+ "/" +:+ lstrip_slash endpoint)
    (Some (access_token w)) params.

(** [params.get(k)] *)
Fixpoint dict_get (k : string) (d : list (string * pvalue)) : option pvalue :=
  match d with
  | [] => None
  | (k', v) :: d' => if String.eqb k k' then Some v else dict_get k d'
  end.

(** The reply of the remote end to a page request: the page. *)
Definition page_reply (p : list Activity.t) : reply :=
  Response 200 "" (Some (JActivities p)).

Definition page_request (w : world) (params : list (string * pvalue))
    (page : Z) : request :=
  call_request w "GET" "/athlete/activities" (dict_set "page" (PInt page) params).

(** The requests for the [n] pages from page [k] on. *)
Definition page_requests (w : world) (params : list (string * pvalue))
    (k : Z) (n : nat) : list request :=
  (fun i => page_request w params (k + Z.of_nat i)) <$> seq 0 n.

(** The instant a datetime is compared by among its own kind. *)
Definition dt_key (d : datetime) : Z :=
  match tzinfo d with
  | Some off => wall d - off
  | None => wall d
  end.

(** [a >= b], where the comparison is defined. *)
Definition dt_ge (a b : datetime) : bool :=
  match dt_compare a b with
  | Some Lt => false
  | Some _ => true
  | None => false
  end.

(** [a] started no earlier than [b]. *)
Definition not_older (a b : Activity.t) : Prop :=
  dt_ge (Activity.start_date a) (Activity.start_date b) = true.

(** Most recent first. *)
Definition newest_first (l : list Activity.t) : Prop :=
  StronglySorted not_older l.

Definition kind (a : Activity.t) : bool := is_aware (Activity.start_date a).

Definition example_settings : Settings :=
  mk_settings "client" "secret" "token" "refresh" 100000
    "data/strava_tokens.json" "https://www.strava.com/api/v3" "./data/gpx".

(** A service with a token good until 100000, at a clock standing at 1000,
    in UTC, with an empty gear cache, no token file, a disk that takes
    every write and an empty track directory, facing the replies [s]. *)
Definition example_world (s : list reply) : world :=
  mk_world example_settings "token" "refresh" 100000 ∅ None (fun _ => Written) ∅
           (fun _ => 1000) (fun x => x) elements s [].

Definition utc (seconds : Z) : datetime :=
  mk_datetime (seconds * 1000000) (Some 0).

Definition example_run (id start : Z) (gear : option string) : Activity.t :=
  Activity.mk id "Morning Run" "Run" (utc start) gear None.

Definition unsorted_page_world : world :=
  example_world
    [ page_reply [example_run 1 10 None; example_run 2 30 (Some "g1");
                  example_run 3 20 None];
      Response 404 "Not Found" None ].

Definition full_page : list Activity.t := replicate 200 (example_run 1 10 None).
Definition short_page : list Activity.t := replicate 50 (example_run 2 5 None).

Definition two_page_world : world :=
  example_world [page_reply full_page; page_reply short_page].

(** The token is set and, at the present reading of the clock, not within
    an hour of expiry: [_ensure_valid_token] does nothing. *)
Definition token_fresh (w : world) : Prop :=
  truthy_str (access_token w) = true
  /\ expires_at w <> 0
  /\ clock w (length (log w)) + 3600 <= expires_at w.

(** The POST [_refresh_access_token] sends. *)
Definition refresh_request (w : world) : request :=
  mk_request "POST" token_url None
    [("client_id", PStr (strava_client_id (settings w)));
     ("client_secret", PStr (strava_client_secret (settings w)));
     ("refresh_token", PStr (refresh_token w));
     ("grant_type", PStr "refresh_token")].



Definition good_tokens : reply :=
  Response 200 "" (Some (JTokens (Some "token2") (Some "refresh2") (Some 99999))).

Definition shoes : Gear.t := Gear.mk "g1" "Shoes".




(** A 401, a successful refresh, and a 500 for the retry. *)
Definition retry_fails_world : world :=
  example_world [Response 401 "Unauthorized" None; good_tokens;
                 Response 500 "Internal Server Error" None].

Definition first_request_fails_world : world :=
  example_world [Response 500 "Internal Server Error" None].

Definition ride : Activity.t :=
  Activity.mk 42 "Evening Ride" "Ride" (utc 1000) None None.

(** Heart rate, cadence, altitude and time are there; the position is not. *)
Definition streams_without_position : Streams.t :=
  Streams.mk None (Some [0; 1]) (Some [10; 11]) (Some [120; 121]) (Some [80; 81]).

Definition no_position_world : world :=
  example_world [Response 200 "" (Some (JActivity ride));
                 Response 200 "" (Some (JStreams streams_without_position))].

Definition morning_run : Activity.t :=
  Activity.mk 7 "Morning Run" "Run" (utc 1000) None None.

(** Two position samples, one time sample, three heart-rate samples. *)
Definition uneven_streams : Streams.t :=
  Streams.mk (Some [(1, 2); (3, 4)]) (Some [5]) None (Some [100; 101; 102]) None.

Definition uneven_streams_world : world :=
  example_world [Response 200 "" (Some (JActivity morning_run));
                 Response 200 "" (Some (JStreams uneven_streams))].

(** The request of [get_activity_streams]. *)
Definition is_streams_call (activity_id : Z) (rq : request) : Prop :=
  exists base_url,
    is_call "GET" ("/activities/" +:+ pretty activity_id +:+ "/streams")
      [("keys", PStr streams_keys); ("key_by_type", PStr "true")] base_url rq.

(** What [get_activity_by_id] sends is no stream fetch. *)
Definition metadata_traffic (activity_id : Z) (rq : request) : Prop :=
  is_refresh rq
  \/ exists base_url,
       is_call "GET" ("/activities/" +:+ pretty activity_id) [] base_url rq.

(** The world of a second call: as the first call left it, with the
    metadata of the activity as the next reply. *)
Definition second_call_world (w1 : world) : world :=
  with_remote [Response 200 "" (Some (JActivity morning_run))] (log w1) w1.

(** The activities that start strictly after [after], by epoch
    timestamp. *)
Definition after_by_epoch (mk : Z -> Z) (after : datetime)
    (activities : list Activity.t) : list Activity.t :=
  filter (fun a => timestamp mk after < timestamp mk (Activity.start_date a))
         activities.

Definition naive (seconds : Z) : datetime := mk_datetime (seconds * 1000000) None.

Definition filter_after (after : datetime) : ActivityFilter.t :=
  ActivityFilter.mk None (Some after) 1 30 None None None.

(** An activity whose start date carries no UTC offset. *)
Definition naive_run : Activity.t :=
  Activity.mk 9 "Lunch Run" "Run" (naive 200) None None.

(** A method that always returns. *)
Definition succeeds {A} (m : M A) : Prop :=
  forall w, exists a w', m w = (Ok a, w').

(** A reply that carries an array of activities carries at most [n]. *)
Definition page_at_most (n : Z) (r : reply) : Prop :=
  match r with
  | Response _ _ (Some (JActivities l)) => Z.of_nat (length l) <= n
  | _ => True
  end.

Definition is_run (a : Activity.t) : Prop := Activity.sport_type a = "Run".

(** The filter [get_running_activities] builds. *)
Definition run_filter (per_page : Z) : ActivityFilter.t :=
  ActivityFilter.mk None None 1 per_page (Some "Run") None None.

Definition mixed_page_world : world :=
  example_world
    [ page_reply [example_run 1 10 None; ride; example_run 3 20 None] ].

(** * More of the service, and its callers in [app/api/routes.py] *)

(** [ActivityFilter(has_gear=False, after=after)] passes its constraints
    with the default page and page size. *)
Definition get_activities_without_gear (after : option datetime)
    : M (list Activity.t) :=
  let activity_filter := ActivityFilter.mk None after 1 30 None (Some false) None in
  get_activities (Some activity_filter) true.

(** [activity.get('gear_id')] on one item of the raw activity list.  A key
    of an object is a string and has no [get]; the AttributeError is
    caught at once by [get_athlete_gear], and stands here as TypeError. *)
Definition item_gear_id (x : option Activity.t) : outcome (option string) :=
  match x with
  | Some a => Ok (Activity.gear_id a)
  | None => Raise TypeError
  end.

(** The loop that collects the gear ids of [get_athlete_gear]. *)
Fixpoint collect_gear_ids (items : list (option Activity.t))
    (gear_ids : gset string) : outcome (gset string) :=
  match items with
  | [] => Ok gear_ids
  | x :: items' =>
      match item_gear_id x with
      | Ok (Some g) =>
          collect_gear_ids items'
            (if truthy_str g then gear_ids ∪ {[ g ]} else gear_ids)
      | Ok None => collect_gear_ids items' gear_ids
      | Raise e => Raise e
      | Diverge => Diverge
      end
  end.

(** The loop that fetches each gear, caches it and appends it. *)
Fixpoint fetch_gear_list (gear_ids : list string) (gear_list : list Gear.t)
    : M (list Gear.t) :=
  match gear_ids with
  | [] => ret gear_list
  | gear_id :: gear_ids' =>
      gear <- get_gear_by_id gear_id ;;
      match gear with
      | Some g =>
          modify (fun w => with_gear_cache
                             (<[Gear.id g := Gear.name g]> (_gear_cache w)) w) ;;;
          fetch_gear_list gear_ids' (gear_list ++ [g])
      | None => fetch_gear_list gear_ids' gear_list
      end
  end.

Definition get_athlete_gear : M (list Gear.t) :=
  try_except
    (activities_data <- _make_request "GET" "/athlete/activities"
                          [("per_page", PInt 200)] ;;
     gear_ids <- lift (collect_gear_ids (json_items activities_data) ∅) ;;
     order <- gets set_order ;;
     fetch_gear_list (order gear_ids) [])
    (fun _ => ret []).

Definition _get_gear_map : M (gmap string string) :=
  cache <- gets _gear_cache ;;
  (if bool_decide (cache = ∅) then get_athlete_gear ;;; ret tt else ret tt) ;;;
  gets _gear_cache.

(** [_load_tokens].  Without a file nothing is done; a file that cannot
    be read as an object raises inside the [try] before anything is
    assigned; of an object, each key that is there replaces the field
    ([data.get(key, self.field)]). *)
Definition _load_tokens : M unit :=
  modify (fun w => match token_file w with
                   | Some (TokenData a r e) =>
                       with_tokens (default (access_token w) a)
                                   (default (refresh_token w) r)
                                   (default (expires_at w) e) w
                   | Some Unreadable => w
                   | None => w
                   end).

(** [l[start:stop]] *)
Definition slice_index (n i : Z) : Z :=
  if i <? 0 then Z.max 0 (i + n) else Z.min i n.

Definition py_slice {A} (l : list A) (start stop : Z) : list A :=
  let n := Z.of_nat (length l) in
  let s := slice_index n start in
  let e := slice_index n stop in
  take (Z.to_nat (e - s)) (drop (Z.to_nat s) l).

Module routes.

(** What a route function ends with: the value it returns, the
    HTTPException it raises, or an exception it lets through. *)
Inductive response (A : Type) :=
| Returned (a : A)
| HTTPException (status_code : Z) (detail : string)
| Propagated (e : exn)
| Stuck.
Arguments Returned {A} a.
Arguments HTTPException {A} status_code detail.
Arguments Propagated {A} e.
Arguments Stuck {A}.

(** [try: m  except StravaAPIError as e: raise HTTPException(400, str(e))] *)
Definition guarded {A} (m : M A) : world -> response A * world :=
  fun w =>
    match m w with
    | (Ok a, w') => (Returned a, w')
    | (Raise (StravaAPIError msg), w') => (HTTPException 400 msg, w')
    | (Raise e, w') => (Propagated e, w')
    | (Diverge, w') => (Stuck, w')
    end.

Record PaginatedResponse := mk_page {
  items : list Activity.t;
  total : Z;
  page : Z;
  per_page : Z;
  total_pages : Z
}.

(** The in-memory pagination at the end of the route. *)
Definition paginate (fetched_activities : list Activity.t) (page per_page : Z)
    : PaginatedResponse :=
  let total := Z.of_nat (length fetched_activities) in
  let total_pages := (total + per_page - 1) / per_page in
  let start_idx := (page - 1) * per_page in
  let end_idx := start_idx + per_page in
  mk_page (py_slice fetched_activities start_idx end_idx)
          total page per_page total_pages.

(** The route [GET /activities]. *)
Definition get_activities (before after : option datetime) (page per_page : Z)
    (activity_type : option string) (has_gear : option bool)
    (gear_id : option string) : world -> response PaginatedResponse * world :=
  guarded
    (let f := ActivityFilter.mk before after page per_page activity_type
                has_gear gear_id in
     activity_filter <- lift (if ActivityFilter.valid f then Ok f
                              else Raise ValidationError) ;;
     fetched_activities <- get_activities (Some activity_filter) true ;;
     mk <- gets mktime ;;
     let fetched_activities :=
       match after with
       | Some a =>
           filter (fun x => timestamp mk a < timestamp mk (Activity.start_date x))
                  fetched_activities
       | None => fetched_activities
       end in
     ret (paginate fetched_activities page per_page)).

End routes.

(** What [get_activities] leaves in place: the settings other than the
    tokens and the track files stay, and no gear id leaves the cache. *)
Definition keeps_store (w w' : world) : Prop :=
  config (settings w') = config (settings w)
  /\ files w' = files w
  /\ dom (_gear_cache w) ⊆ dom (_gear_cache w').

(** A page of a run with gear, a run without gear and a ride without gear;
    the lookup of the gear is answered with the shoes. *)
Definition geared_page_world : world :=
  example_world
    [ page_reply [example_run 1 10 (Some "g1"); example_run 2 30 None; ride];
      Response 200 "" (Some (JGear shoes)) ].

Definition gearless_runs : ActivityFilter.t :=
  ActivityFilter.mk None None 1 30 (Some "Run") (Some false) None.

(** A world whose gear cache already holds the shoes. *)
Definition cached_gear_world (s : list reply) : world :=
  with_gear_cache {[ "g1" := "Shoes" ]} (example_world s).



(** A service that was never authenticated. *)
Definition unauthenticated_world (s : list reply) : world :=
  with_tokens "" "" 0 (example_world s).

(** A token reply without the refresh token. *)
Definition tokens_without_refresh : reply :=
  Response 200 "" (Some (JTokens (Some "token2") None (Some 99999))).

(** What [safe_name] does to one character. *)
Definition safe_char (c : ascii) : ascii :=
  if Ascii.eqb c " " then "_"%char
  else if Ascii.eqb c "/" then "_"%char
  else if Ascii.eqb c "\" then "_"%char
  else c.

(** The directory part [os.path.join] puts before a relative file name. *)
Definition directory_prefix (save_path : string) : string :=
  match save_path with
  | EmptyString => EmptyString
  | _ => if ends_with_slash save_path then save_path else save_path +:+ "/"
  end.

(** A second activity whose name differs from "My run/1" in the
    characters that are replaced. *)
Definition other_run : Activity.t :=
  Activity.mk 8 "My run 1" "Run" (utc 2000) None None.

Definition colliding_call_world (w1 : world) : world :=
  with_remote [Response 200 "" (Some (JActivity other_run))] (log w1) w1.

(** The cache after [self._gear_cache[gear.id] = gear.name] for each gear
    of a list, in order. *)
Definition cache_gears (cache : gmap string string) (gear_list : list Gear.t)
    : gmap string string :=
  foldl (fun c g => <[Gear.id g := Gear.name g]> c) cache gear_list.

(** [a] started strictly after [cutoff], by epoch timestamp. *)
Definition started_after (mk : Z -> Z) (cutoff : datetime) (a : Activity.t) : Prop :=
  timestamp mk cutoff < timestamp mk (Activity.start_date a).

(** The name [download_gpx] files the track under: the name given, or
    the name of the activity when none is given or it is empty. *)
Definition name_in_effect (activity_name : option string) (a : Activity.t)
    : string :=
  match activity_name with
  | Some (String c n) => String c n
  | _ => Activity.name a
  end.

(** The directory [download_gpx] writes to. *)
Definition directory_in_effect (save_path : option string) (w : world) : string :=
  match save_path with
  | Some (String c d) => String c d
  | _ => gpx_storage_path (settings w)
  end.

(** An activity as the gear enrichment leaves it: the cached name of its
    gear when its gear id is set, not empty and in the cache, and as it
    was otherwise. *)
Definition with_cached_name (cache : gmap string string) (a : Activity.t)
    : Activity.t :=
  match Activity.gear_id a with
  | Some (String c g) =>
      match cache !! String c g with
      | Some n =>
          Activity.mk (Activity.id a) (Activity.name a) (Activity.sport_type a)
            (Activity.start_date a) (Activity.gear_id a) (Some n)
      | None => a
      end
  | _ => a
  end.

(** A reply that is no gear with the id [g]. *)
Definition no_gear_reply_for (g : string) (r : reply) : Prop :=
  forall c t gear, r = Response c t (Some (JGear gear)) -> Gear.id gear <> g.

(** A run whose payload already names its gear. *)
Definition named_run : Activity.t :=
  Activity.mk 5 "Morning Run" "Run" (utc 10) (Some "g1") (Some "Old pair").

(** The lookup of the gear of [named_run] is answered 404. *)
Definition named_run_world : world :=
  example_world [page_reply [named_run]; Response 404 "Not Found" None].

(** Two runs with the gear "g1" and "g2".  The lookup of "g1" is answered
    404, the lookup of "g2" with a gear whose id is "g1". *)
Definition crossed_gear_world : world :=
  example_world
    [ page_reply [example_run 1 20 (Some "g1"); example_run 2 10 (Some "g2")];
      Response 404 "Not Found" None;
      Response 200 "" (Some (JGear shoes)) ].

(** The world when a refresh has been answered with the three tokens,
    before they are saved: the reply is used up, the request logged, and
    the tokens stored in the service and in the settings. *)
Definition refreshed (a r : string) (e : Z) (s : list reply) (w : world) : world :=
  with_settings
    (mk_settings (strava_client_id (settings w)) (strava_client_secret (settings w))
       a r e (strava_token_file (settings w)) (strava_api_base_url (settings w))
       (gpx_storage_path (settings w)))
    (with_tokens a r e (with_remote s (log w ++ [refresh_request w]) w)).

(** The token file is given with a directory. *)
Definition in_directory (path : string) : Prop :=
  "/"%char ∈ list_ascii_of_string path.

(** A service whose token file is given without a directory. *)
Definition bare_token_file_world (s : list reply) : world :=
  with_settings
    (mk_settings "client" "secret" "token" "refresh" 100000 "tokens.json"
       "https://www.strava.com/api/v3" "./data/gpx")
    (with_tokens "token" "refresh" 1000 (example_world s)).

(** A service whose disk is full: every dump of the token file fails. *)
Definition full_disk_world (s : list reply) : world :=
  mk_world example_settings "token" "refresh" 100000 ∅ None (fun _ => DumpError) ∅
           (fun _ => 1000) (fun x => x) elements s [].

(** * Properties *)

(** ** Running a method: inversion of [bind] and [try_except] *)

Lemma bind_ok_inv {A B} (m : M A) (k : A -> M B) w b w' :
  bind m k w = (Ok b, w') ->
  exists a w1, m w = (Ok a, w1) /\ k a w1 = (Ok b, w').
Proof.
  unfold bind. destruct (m w) as [[a|e|] w1]; intros H; [|discriminate..].
  by exists a, w1.
Qed.

Lemma bind_inv {A B} (m : M A) (k : A -> M B) w r w' :
  bind m k w = (r, w') ->
  (exists a w1, m w = (Ok a, w1) /\ k a w1 = (r, w'))
  \/ (exists e, m w = (Raise e, w') /\ r = Raise e)
  \/ (m w = (Diverge, w') /\ r = Diverge).
Proof.
  unfold bind. destruct (m w) as [[a|e|] w1]; intros H.
  - left. by exists a, w1.
  - right; left. exists e. by inversion H.
  - right; right. by inversion H.
Qed.

Lemma try_except_ok_inv {A} (m : M A) (h : exn -> M A) w a w' :
  try_except m h w = (Ok a, w') ->
  m w = (Ok a, w')
  \/ exists e w1, m w = (Raise e, w1) /\ h e w1 = (Ok a, w').
Proof.
  unfold try_except. destruct (m w) as [[x|e|] w1]; intros H.
  - by left.
  - right. by exists e, w1.
  - discriminate.
Qed.

Lemma bind_run_ok {A B} (m : M A) (k : A -> M B) w a w1 :
  m w = (Ok a, w1) -> bind m k w = k a w1.
Proof. unfold bind. by intros ->. Qed.

Lemma lift_inv {A} (o : outcome A) w r w' : lift o w = (r, w') -> r = o /\ w' = w.
Proof. unfold lift. by inversion 1. Qed.

Lemma gets_inv {A} (f : world -> A) w r w' :
  gets f w = (r, w') -> r = Ok (f w) /\ w' = w.
Proof. unfold gets. by inversion 1. Qed.

(** ** What a method may change *)

Section Sound.
Context (R : relation world) `{!PreOrder R}.

Lemma sound_ret {A} (a : A) : sound R (ret a).
Proof. intros w; split; [reflexivity|done]. Qed.

Lemma sound_raise {A} e : sound R (@raise A e).
Proof. intros w; split; [reflexivity|done]. Qed.

Lemma sound_gets {A} (f : world -> A) : sound R (gets f).
Proof. intros w; split; [reflexivity|done]. Qed.

Lemma sound_lift {A} (o : outcome A) : o <> Diverge -> sound R (lift o).
Proof. intros Ho w; split; [reflexivity|done]. Qed.

Lemma sound_modify f : (forall w, R w (f w)) -> sound R (modify f).
Proof. intros Hf w; split; [apply Hf|done]. Qed.

Lemma sound_bind {A B} (m : M A) (k : A -> M B) :
  sound R m -> (forall a, sound R (k a)) -> sound R (bind m k).
Proof.
  intros Hm Hk w. unfold bind.
  destruct (Hm w) as [HR Hd]. destruct (m w) as [[a|e|] w1]; simpl in *.
  - destruct (Hk a w1) as [HR' Hd']. split; [by etrans|done].
  - done.
  - done.
Qed.

Lemma sound_try_except {A} (m : M A) (h : exn -> M A) :
  sound R m -> (forall e, sound R (h e)) -> sound R (try_except m h).
Proof.
  intros Hm Hh w. unfold try_except.
  destruct (Hm w) as [HR Hd]. destruct (m w) as [[a|e|] w1]; simpl in *.
  - done.
  - destruct (Hh e w1) as [HR' Hd']. split; [by etrans|done].
  - done.
Qed.

Lemma sound_for_each {A} (l : list A) (f : A -> M unit) :
  (forall x, sound R (f x)) -> sound R (for_each l f).
Proof.
  intros Hf. induction l as [|x l IH]; simpl.
  - apply sound_ret.
  - apply sound_bind; [apply Hf|by intros _].
Qed.

Lemma sound_run {A} (m : M A) w r w' : sound R m -> m w = (r, w') -> R w w'.
Proof. intros Hm Hr. destruct (Hm w) as [HR _]. by rewrite Hr in HR. Qed.

Lemma sound_total {A} (m : M A) w w' : sound R m -> m w <> (Diverge, w').
Proof. intros Hm Hr. destruct (Hm w) as [_ Hd]. by rewrite Hr in Hd. Qed.
End Sound.

#[local] Instance io_step_preorder P : PreOrder (io_step P).
Proof.
  split.
  - intros w. split; try done.
    + by exists [].
    + exists []. by rewrite app_nil_r.
  - intros w1 w2 w3 [] [].
    split; try congruence.
    + destruct io_script0 as [u1 H1], io_script1 as [u2 H2].
      exists (u1 ++ u2). by rewrite H1, H2, app_assoc.
    + destruct io_log0 as [n1 [H1 F1]], io_log1 as [n2 [H2 F2]].
      exists (n1 ++ n2). split; [by rewrite H2, H1, app_assoc|by apply Forall_app].
Qed.

Lemma io_step_weaken (P Q : request -> Prop) w w' :
  (forall rq, P rq -> Q rq) -> io_step P w w' -> io_step Q w w'.
Proof.
  intros HPQ []. split; try done.
  destruct io_log0 as [n [H F]]. exists n. split; [done|].
  eapply Forall_impl; eauto.
Qed.

Lemma io_step_script_length P w w' :
  io_step P w w' -> (length (script w') <= length (script w))%nat.
Proof. intros [_ _ _ _ _ _ [u ->] _]. rewrite length_app. lia. Qed.

Lemma io_step_in_script P w w' x :
  io_step P w w' -> x ∈ script w' -> x ∈ script w.
Proof. intros [_ _ _ _ _ _ [u ->] _] Hx. apply elem_of_app. by right. Qed.

(** ** Remote Client: frame *)

Lemma client_request_inv rq w r w' :
  client_request rq w = (r, w') ->
  w' = with_remote (tail (script w)) (log w ++ [rq]) w
  /\ match r with
     | Ok (c, t, b) => exists s, script w = Response c t b :: s
     | Raise e => exists m, e = RequestError m
     | Diverge => False
     end.
Proof.
  unfold client_request. destruct (script w) as [|[c t b|m] s]; inversion 1; subst;
    simpl; split; eauto.
Qed.

Lemma sound_client_request (P : request -> Prop) rq :
  P rq -> sound (io_step P) (client_request rq).
Proof.
  intros HP w. unfold client_request.
  destruct (script w) as [|[c t b|m] s] eqn:E; simpl; (split; [|done]);
    (split; simpl; try done;
     [ first [by exists [] | by eexists [_]]
     | exists [rq]; split; [done|by constructor] ]).
Qed.

Lemma sound_raise_for_status R `{!PreOrder R} response :
  sound R (raise_for_status response).
Proof.
  destruct response as [[c t] b]. unfold raise_for_status.
  destruct (_ && _); [apply sound_ret|apply sound_raise]; done.
Qed.

Lemma sound_response_json R `{!PreOrder R} response :
  sound R (response_json response).
Proof.
  destruct response as [[c t] [j|]]; [apply sound_ret|apply sound_raise]; done.
Qed.

Lemma sound_token_field R `{!PreOrder R} {A} j key
    (sel : option string -> option string -> option Z -> option A) :
  sound R (token_field j key sel).
Proof.
  destruct j; simpl; try (apply sound_raise; done).
  destruct (sel _ _ _); [apply sound_ret|apply sound_raise]; done.
Qed.

(** An assignment to the tokens, to the token settings or to the token
    file. *)
Lemma io_modify_tokens P (f : world -> world) :
  (forall w, config (settings (f w)) = config (settings w)
             /\ files (f w) = files w
             /\ _gear_cache (f w) = _gear_cache w
             /\ clock (f w) = clock w
             /\ mktime (f w) = mktime w
             /\ set_order (f w) = set_order w
             /\ script (f w) = script w
             /\ log (f w) = log w) ->
  sound (io_step P) (modify f).
Proof.
  intros Hf. apply sound_modify. intros w.
  destruct (Hf w) as (? & ? & ? & ? & ? & ? & Hscript & Hlog).
  split; try done.
  - exists []. by rewrite Hscript.
  - exists []. by rewrite Hlog, app_nil_r.
Qed.

(** The structural rules, tried in turn. *)
Ltac sound_rules :=
  repeat lazymatch goal with
    | |- sound _ (ret _) => apply sound_ret; typeclasses eauto
    | |- sound _ (raise _) => apply sound_raise; typeclasses eauto
    | |- sound _ (gets _) => apply sound_gets; typeclasses eauto
    | |- sound _ (raise_for_status _) =>
        apply sound_raise_for_status; typeclasses eauto
    | |- sound _ (response_json _) =>
        apply sound_response_json; typeclasses eauto
    | |- sound _ (token_field _ _ _) =>
        apply sound_token_field; typeclasses eauto
    | |- sound _ (modify _) =>
        apply io_modify_tokens; intros ?; by repeat split
    | |- sound _ (bind _ _) =>
        apply sound_bind; [typeclasses eauto| |intros ?]
    | |- sound _ (try_except _ _) =>
        apply sound_try_except; [typeclasses eauto| |intros ?]
    end.

Lemma io_save_tokens (P : request -> Prop) : sound (io_step P) _save_tokens.
Proof.
  unfold _save_tokens. sound_rules.
  - destruct (negb _); sound_rules.
    match goal with fs : disk_result |- _ => destruct fs end; sound_rules.
  - match goal with fs : disk_result |- _ => destruct fs end; sound_rules.
Qed.

Lemma io_refresh_access_token (P : request -> Prop) :
  (forall rq, is_refresh rq -> P rq) ->
  sound (io_step P) _refresh_access_token.
Proof.
  intros HP. unfold _refresh_access_token. sound_rules.
  destruct (negb _); sound_rules.
  - apply sound_client_request, HP; by split.
  - apply io_save_tokens.
  - match goal with e : exn |- _ => destruct e end; sound_rules.
Qed.

Lemma io_ensure_valid_token (P : request -> Prop) :
  (forall rq, is_refresh rq -> P rq) ->
  sound (io_step P) _ensure_valid_token.
Proof.
  intros HP. unfold _ensure_valid_token, time_time. sound_rules.
  destruct (_ || _); sound_rules. by apply io_refresh_access_token.
Qed.

Lemma io_get_headers (P : request -> Prop) :
  (forall rq, is_refresh rq -> P rq) ->
  sound (io_step P) _get_headers.
Proof.
  intros HP. unfold _get_headers. sound_rules.
  - by apply io_ensure_valid_token.
  - destruct (negb _); sound_rules.
Qed.

Lemma io_make_request (P : request -> Prop) method endpoint params :
  (forall rq, is_refresh rq -> P rq) ->
  (forall rq base_url, is_call method endpoint params base_url rq -> P rq) ->
  sound (io_step P) (_make_request method endpoint params).
Proof.
  intros HP HQ. unfold _make_request. sound_rules.
  - by apply io_get_headers.
  - apply sound_client_request. eapply HQ. by split.
  - match goal with e : exn |- _ => destruct e end; sound_rules.
    destruct (_ =? _); sound_rules.
    + by apply io_refresh_access_token.
    + match goal with b : bool |- _ => destruct b end; sound_rules.
      * by apply io_get_headers.
      * apply sound_client_request. eapply HQ. by split.
Qed.

(** ** Remote Client: successful calls *)

(** One exchange that ends well: the reply at the front of the script was
    a 2xx response with a JSON body. *)
Lemma exchange_ok_inv rq w j w' :
  (response <- client_request rq ;;
   raise_for_status response ;;;
   response_json response) w = (Ok j, w') ->
  exists c t s,
    script w = Response c t (Some j) :: s
    /\ (200 <=? c) && (c <=? 299) = true
    /\ w' = with_remote s (log w ++ [rq]) w.
Proof.
  intros H. apply bind_ok_inv in H as ([[c t] b] & w1 & H1 & H).
  apply client_request_inv in H1 as [-> [s Hs]].
  apply bind_ok_inv in H as ([] & w2 & H2 & H).
  unfold raise_for_status in H2.
  destruct ((200 <=? c) && (c <=? 299)) eqn:Hc; [|discriminate].
  inversion H2; subst w2. destruct b as [j'|]; [|discriminate].
  inversion H; subst. exists c, t, s. by rewrite Hs.
Qed.

Lemma exchange_ok rq w c t j s :
  script w = Response c t (Some j) :: s ->
  (200 <=? c) && (c <=? 299) = true ->
  (response <- client_request rq ;;
   raise_for_status response ;;;
   response_json response) w = (Ok j, with_remote s (log w ++ [rq]) w).
Proof.
  intros Hs Hc. unfold bind, client_request, raise_for_status.
  rewrite Hs. simpl. by rewrite Hc.
Qed.

Lemma sound_exchange P rq :
  P rq ->
  sound (io_step P)
    (response <- client_request rq ;;
     raise_for_status response ;;;
     response_json response).
Proof. intros HP. sound_rules. by apply sound_client_request. Qed.

(** A call that returns consumed a reply, and returns the body of a
    response of the script. *)
Lemma make_request_ok_inv method endpoint params w j w' :
  _make_request method endpoint params w = (Ok j, w') ->
  (length (script w') < length (script w))%nat
  /\ exists c t, Response c t (Some j) ∈ script w.
Proof.
  unfold _make_request. intros H.
  apply bind_ok_inv in H as (base & w0 & H0 & H).
  apply gets_inv in H0 as [[= ->] ->].
  apply bind_ok_inv in H as (h & w1 & H1 & H).
  apply (sound_run _ _ _ _ _ (io_get_headers (fun _ => True) (fun _ _ => I))) in H1.
  apply try_except_ok_inv in H as [H | (e & w2 & H2 & H)].
  - apply exchange_ok_inv in H as (c & t & s & Hs & _ & ->). simpl.
    split.
    + apply io_step_script_length in H1. rewrite Hs in H1. simpl in H1. lia.
    + exists c, t. eapply io_step_in_script; [done|]. rewrite Hs. by left.
  - apply (sound_run _ _ _ _ _ (sound_exchange (fun _ => True) _ I)) in H2.
    destruct e; try discriminate.
    destruct (code =? 401); [|discriminate].
    apply bind_ok_inv in H as (b & w3 & H3 & H).
    apply (sound_run _ _ _ _ _ (io_refresh_access_token (fun _ => True) (fun _ _ => I))) in H3.
    destruct b; [|discriminate].
    apply bind_ok_inv in H as (h' & w4 & H4 & H).
    apply (sound_run _ _ _ _ _ (io_get_headers (fun _ => True) (fun _ _ => I))) in H4.
    apply exchange_ok_inv in H as (c & t & s & Hs & _ & ->). simpl.
    assert (io_step (fun _ => True) w w4) as Hw by (do 3 (etrans; [eassumption|]); done).
    split.
    + apply io_step_script_length in Hw. rewrite Hs in Hw. simpl in Hw. lia.
    + exists c, t. eapply io_step_in_script; [done|]. rewrite Hs. by left.
Qed.

(** ** A token that stays valid *)

Lemma ensure_valid_token_good w :
  token_good w -> _ensure_valid_token w = (Ok tt, w).
Proof.
  intros (Ha & He & Hc). unfold _ensure_valid_token, bind, gets, time_time.
  simpl. rewrite Ha. unfold truthy_int.
  destruct (Z.eqb_spec (expires_at w) 0) as [|_]; [done|]. simpl.
  destruct (Z.ltb_spec (expires_at w) (clock w (length (log w)) + 3600)) as [Hlt|_].
  - specialize (Hc (length (log w))). lia.
  - done.
Qed.

Lemma get_headers_good w :
  token_good w -> _get_headers w = (Ok (access_token w), w).
Proof.
  intros Hg. unfold _get_headers, bind. rewrite (ensure_valid_token_good w Hg).
  unfold gets. simpl. destruct Hg as (-> & _). done.
Qed.

Lemma token_good_with_remote s l w : token_good w -> token_good (with_remote s l w).
Proof. done. Qed.

Lemma make_request_good w method endpoint params c t j s :
  token_good w ->
  script w = Response c t (Some j) :: s ->
  (200 <=? c) && (c <=? 299) = true ->
  _make_request method endpoint params w
  = (Ok j, with_remote s (log w ++ [call_request w method endpoint params]) w).
Proof.
  intros Hg Hs Hc. unfold _make_request.
  unfold bind at 1. unfold gets at 1.
  rewrite (bind_run_ok _ _ _ _ _ (get_headers_good w Hg)).
  unfold try_except. by rewrite (exchange_ok _ w c t j s Hs Hc).
Qed.

(** ** Activity Aggregator: paging *)

Lemma dict_get_set k v d : dict_get k (dict_set k v d) = Some v.
Proof.
  induction d as [|[k' v'] d IH]; simpl.
  - by rewrite String.eqb_refl.
  - destruct (String.eqb k k') eqn:E; simpl; rewrite ?String.eqb_refl, ?E; done.
Qed.

Lemma dict_get_set_ne k k' v d :
  k <> k' -> dict_get k (dict_set k' v d) = dict_get k d.
Proof.
  intros Hne. induction d as [|[k2 v2] d IH]; simpl.
  - destruct (String.eqb_spec k k'); done.
  - destruct (String.eqb_spec k' k2) as [->|Hk]; simpl.
    + destruct (String.eqb_spec k k2); done.
    + destruct (String.eqb_spec k k2); done.
Qed.

Lemma dict_set_set k v v' d : dict_set k v (dict_set k v' d) = dict_set k v d.
Proof.
  induction d as [|[k2 v2] d IH]; simpl.
  - by rewrite String.eqb_refl.
  - destruct (String.eqb k k2) eqn:E; simpl; rewrite ?String.eqb_refl, ?E; congruence.
Qed.

Lemma page_requests_S w params k n :
  page_requests w params k (S n)
  = page_request w params k :: page_requests w params (k + 1) n.
Proof.
  unfold page_requests. simpl. rewrite Z.add_0_r. f_equal.
  rewrite <- fmap_S_seq, <- list_fmap_compose. apply list_fmap_ext.
  intros _ i _. simpl. f_equal. lia.
Qed.

Lemma page_request_next w s l params k k' :
  page_request (with_remote s l w) (dict_set "page" (PInt k') params) k
  = page_request w params k.
Proof. unfold page_request, call_request. simpl. by rewrite dict_set_set. Qed.

Lemma page_requests_next w s l params k' k n :
  page_requests (with_remote s l w) (dict_set "page" (PInt k') params) k n
  = page_requests w params k n.
Proof.
  unfold page_requests. apply list_fmap_ext. intros _ i _.
  apply page_request_next.
Qed.

Lemma with_remote_twice s l s' l' w :
  with_remote s l (with_remote s' l' w) = with_remote s l w.
Proof. done. Qed.

Lemma json_items_page p : json_items (JActivities p) = Some <$> p.
Proof. done. Qed.

Lemma page_loop_pages full : forall last rest fuel params k acc w,
  token_good w ->
  Forall (fun p => length p = 200%nat) full ->
  (length last < 200)%nat ->
  script w = (page_reply <$> full) ++ page_reply last :: rest ->
  (length full < fuel)%nat ->
  page_loop fuel params k acc w
  = (Ok (acc ++ (Some <$> (concat full ++ last))),
     with_remote rest (log w ++ page_requests w params k (S (length full))) w).
Proof.
  induction full as [|p full IH];
    intros last rest fuel params k acc w Hg Hfull Hlast Hs Hfuel;
    (destruct fuel as [|fuel]; [simpl in Hfuel; lia|]); cbn [page_loop].
  - rewrite fmap_nil, app_nil_l in Hs.
    rewrite (bind_run_ok _ _ _ _ _
               (make_request_good w _ _ _ 200 "" _ rest Hg Hs eq_refl)).
    rewrite json_items_page, page_requests_S. cbn [concat app length].
    destruct last as [|a last].
    + by rewrite fmap_nil, app_nil_r.
    + rewrite fmap_cons. rewrite <- (fmap_cons Some), length_fmap.
      destruct (Nat.ltb_spec (length (a :: last)) 200); [done|lia].
  - apply Forall_cons in Hfull as [Hp Hfull].
    rewrite fmap_cons, <- app_comm_cons in Hs.
    rewrite (bind_run_ok _ _ _ _ _
               (make_request_good w _ _ _ 200 "" _ _ Hg Hs eq_refl)).
    rewrite json_items_page.
    destruct p as [|a p]; [discriminate|].
    rewrite fmap_cons. rewrite <- (fmap_cons Some), length_fmap.
    destruct (Nat.ltb_spec (length (a :: p)) 200) as [Hlt|_]; [lia|].
    rewrite (IH last rest); try done; [|simpl in Hfuel; lia].
    rewrite with_remote_twice, page_requests_next, (page_requests_S w params k).
    cbn [log with_remote length concat].
    f_equal; [f_equal|f_equal].
    + by rewrite !fmap_app, !app_assoc.
    + by rewrite <- app_assoc.
Qed.

Lemma fetch_all_pages w params full last rest :
  token_good w ->
  Forall (fun p => length p = 200%nat) full ->
  (length last < 200)%nat ->
  script w = (page_reply <$> full) ++ page_reply last :: rest ->
  fetch_activities_data params true w
  = (Ok (Some <$> (concat full ++ last)),
     with_remote rest
       (log w ++ page_requests w (dict_set "per_page" (PInt 200) params) 1
                   (S (length full))) w).
Proof.
  intros Hg Hfull Hlast Hs. unfold fetch_activities_data.
  unfold bind at 1. unfold gets at 1.
  rewrite (page_loop_pages full last rest); try done.
  rewrite Hs, length_app, length_fmap. simpl. lia.
Qed.

Lemma page_requests_lookup w params k n i rq :
  page_requests w params k n !! i = Some rq ->
  rq = page_request w params (k + Z.of_nat i).
Proof.
  unfold page_requests. rewrite list_lookup_fmap. intros H.
  destruct (seq 0 n !! i) as [j|] eqn:E; [|discriminate].
  apply lookup_seq in E as [-> _]. simpl in H. by inversion H.
Qed.

(** ** Activity Aggregator: order of the result *)

Lemma dt_compare_same x y :
  is_aware x = is_aware y ->
  dt_compare x y = Some (Z.compare (dt_key x) (dt_key y)).
Proof.
  unfold is_aware, dt_compare, dt_key.
  destruct (tzinfo x), (tzinfo y); done.
Qed.

Lemma not_older_key a b :
  kind a = kind b ->
  not_older a b <-> dt_key (Activity.start_date b) <= dt_key (Activity.start_date a).
Proof.
  intros Hk. unfold not_older, dt_ge. rewrite (dt_compare_same _ _ Hk).
  destruct (Z.compare_spec (dt_key (Activity.start_date a))
                           (dt_key (Activity.start_date b))); simpl; split; intros; first [done|lia].
Qed.

Lemma dt_lt_key a b :
  kind a = kind b ->
  dt_lt (Activity.start_date a) (Activity.start_date b)
  = Some (dt_key (Activity.start_date a) <? dt_key (Activity.start_date b)).
Proof.
  intros Hk. unfold dt_lt, dt_gt. rewrite (dt_compare_same _ _ (eq_sym Hk)).
  destruct (Z.compare_spec (dt_key (Activity.start_date b))
                           (dt_key (Activity.start_date a)));
    f_equal; symmetry; lia.
Qed.

Lemma insert_desc_Forall (P : Activity.t -> Prop) x l :
  Forall P (insert_desc x l) <-> P x /\ Forall P l.
Proof.
  induction l as [|y l IH]; simpl.
  - rewrite Forall_singleton, Forall_nil. tauto.
  - destruct (dt_lt _ _) as [[]|]; rewrite !Forall_cons, ?IH; tauto.
Qed.

Lemma insert_desc_sorted k x l :
  kind x = k ->
  Forall (fun a => kind a = k) l ->
  newest_first l ->
  newest_first (insert_desc x l).
Proof.
  unfold newest_first. intros Hx Hl Hs.
  induction Hs as [|y l Hs IH Hy]; simpl.
  - repeat constructor.
  - apply Forall_cons in Hl as [Hky Hl].
    assert (kind x = kind y) as Hxy by congruence.
    rewrite (dt_lt_key _ _ Hxy).
    destruct (Z.ltb_spec (dt_key (Activity.start_date x))
                         (dt_key (Activity.start_date y))) as [Hlt|Hge].
    + constructor; [by apply IH|].
      apply insert_desc_Forall. split; [|done].
      apply not_older_key; [done|lia].
    + constructor; [by constructor|].
      constructor; [by apply not_older_key|].
      rewrite Forall_forall in Hy, Hl. apply Forall_forall. intros z Hz.
      assert (kind z = k) as Hkz by (by apply Hl).
      apply not_older_key; [congruence|].
      specialize (Hy z Hz). apply not_older_key in Hy; [lia|congruence].
Qed.

Lemma sort_desc_Forall (P : Activity.t -> Prop) l :
  Forall P (sort_desc l) <-> Forall P l.
Proof.
  induction l as [|x l IH]; simpl; [done|].
  by rewrite insert_desc_Forall, Forall_cons, IH.
Qed.

Lemma sort_desc_sorted k l :
  Forall (fun a => kind a = k) l -> newest_first (sort_desc l).
Proof.
  induction l as [|x l IH]; simpl; intros Hl.
  - constructor.
  - apply Forall_cons in Hl as [Hx Hl].
    eapply insert_desc_sorted; [done| |by apply IH].
    by apply sort_desc_Forall.
Qed.

Lemma mixed_awareness_false l :
  mixed_awareness l = false -> exists k, Forall (fun a => kind a = k) l.
Proof.
  unfold mixed_awareness. intros H. apply andb_false_iff in H as [H|H].
  - exists false. apply Forall_forall. intros a Ha.
    destruct (kind a) eqn:E; [|done].
    assert (existsb (fun a => is_aware (Activity.start_date a)) l = true) as Hex
      by (apply existsb_exists; exists a; split; [by apply list_elem_of_In|done]).
    congruence.
  - exists true. apply Forall_forall. intros a Ha.
    destruct (kind a) eqn:E; [done|].
    assert (existsb (fun a => negb (is_aware (Activity.start_date a))) l = true) as Hex
      by (apply existsb_exists; exists a; split;
          [by apply list_elem_of_In|unfold kind in E; by rewrite E]).
    congruence.
Qed.

Lemma sort_by_start_date_desc_ok l l' :
  sort_by_start_date_desc l = Ok l' -> newest_first l'.
Proof.
  unfold sort_by_start_date_desc. destruct (mixed_awareness l) eqn:E; [done|].
  intros [= <-]. apply mixed_awareness_false in E as [k Hk].
  by eapply sort_desc_sorted.
Qed.

Lemma filter_and_sort_ok mk f l l' :
  filter_and_sort mk f l = Ok l' -> newest_first l'.
Proof.
  unfold filter_and_sort.
  destruct (match f with Some _ => _ | None => _ end); [|done..].
  apply sort_by_start_date_desc_ok.
Qed.

(** C1.  Whatever the filter and whether or not all pages are fetched,
    the list [get_activities] returns is ordered by start date, most
    recent first: each activity started no earlier than every activity
    after it, in the order Python compares datetimes by. *)
Theorem get_activities_newest_first activity_filter all_pages w l w' :
  get_activities activity_filter all_pages w = (Ok l, w') ->
  newest_first l.
Proof.
  unfold get_activities, enrich_filter_sort. intros H.
  apply bind_ok_inv in H as (mk & w1 & _ & H).
  apply bind_ok_inv in H as (data & w2 & _ & H).
  apply bind_ok_inv in H as (acts & w3 & _ & H).
  apply bind_ok_inv in H as (acts' & w4 & _ & H).
  apply lift_inv in H as [H _]. symmetry in H.
  by eapply filter_and_sort_ok.
Qed.

(** ** Scenarios *)

(** C1, witness: a page that arrives oldest, newest, middle comes back
    newest first. *)
Lemma get_activities_newest_first_witness :
  newest_first [example_run 2 30 (Some "g1"); example_run 3 20 None;
                example_run 1 10 None].
Proof.
  eapply (get_activities_newest_first None false unsorted_page_world).
  vm_compute. reflexivity.
Defined.

(** C3.  With [all_pages] set and a token that stays valid, when the
    remote end answers with any number of full pages of 200 items and then
    a page of fewer than 200 (possibly none), the paging loop sends
    exactly one request per page, for pages 1, 2, ... in turn with
    [per_page] 200, stops after the short page, and hands the
    concatenation of all pages to the parsing, enrichment, filter and sort
    steps. *)
Theorem get_activities_pages_until_short_page activity_filter w full last rest :
  token_good w ->
  Forall (fun p => length p = 200%nat) full ->
  (length last < 200)%nat ->
  script w = (page_reply <$> full) ++ page_reply last :: rest ->
  let query := dict_set "per_page" (PInt 200)
                  (build_params (mktime w) activity_filter) in
  let requests := page_requests w query 1 (S (length full)) in
  let w' := with_remote rest (log w ++ requests) w in
  fetch_activities_data (build_params (mktime w) activity_filter) true w
    = (Ok (Some <$> (concat full ++ last)), w')
  /\ get_activities activity_filter true w
     = enrich_filter_sort (mktime w) activity_filter
         (Some <$> (concat full ++ last)) w'
  /\ length requests = S (length full)
  /\ forall i rq, requests !! i = Some rq ->
       method rq = "GET"
       /\ url rq = strava_api_base_url (settings w) +:+ "/athlete/activities"
       /\ dict_get "page" (params rq) = Some (PInt (Z.of_nat i + 1))
       /\ dict_get "per_page" (params rq) = Some (PInt 200).
Proof.
  intros Hg Hfull Hlast Hs query requests w'.
  pose proof (fetch_all_pages w (build_params (mktime w) activity_filter)
                full last rest Hg Hfull Hlast Hs) as Hfetch.
  split; [exact Hfetch|]. split; [|split].
  - unfold get_activities. unfold bind at 1. unfold gets at 1.
    by rewrite (bind_run_ok _ _ _ _ _ Hfetch).
  - unfold requests, page_requests. by rewrite length_fmap, length_seq.
  - intros i rq Hrq. apply page_requests_lookup in Hrq as ->.
    unfold page_request, call_request, query; simpl.
    repeat split.
    + rewrite dict_get_set. do 2 f_equal. lia.
    + rewrite dict_get_set_ne by done. apply dict_get_set.
Qed.

(** C3, witness: page 1 returns 200 items and page 2 returns 50; two page
    requests are sent and 250 items are passed on. *)
Lemma get_activities_pages_200_then_50 :
  exists w',
    fetch_activities_data [] true two_page_world
      = (Ok (Some <$> (full_page ++ short_page)), w')
    /\ get_activities None true two_page_world
       = enrich_filter_sort (fun x => x) None
           (Some <$> (full_page ++ short_page)) w'
    /\ length (log w') = 2%nat
    /\ length (full_page ++ short_page) = 250%nat.
Proof.
  destruct (get_activities_pages_until_short_page None two_page_world
              [full_page] short_page []) as (H1 & H2 & H3 & H4).
  - repeat split; [discriminate|intros n; simpl; lia].
  - repeat constructor.
  - simpl. lia.
  - reflexivity.
  - eexists. split; [exact H1|]. split; [exact H2|]. split; reflexivity.
Defined.

(** ** Remote Client: the 401 path *)

Lemma token_good_fresh w : token_good w -> token_fresh w.
Proof. intros (Ha & He & Hc). by repeat split. Qed.











(** C5 fails on the code: the retry after a 401 and a successful refresh
    runs inside the [except httpx.HTTPStatusError] handler, where no
    except clause applies to it.  A 500 answer to the retry leaves
    [_make_request], and with it [get_activities], as the bare
    httpx.HTTPStatusError; the same answer to a first request is wrapped
    into StravaAPIError. *)
Lemma retried_request_failure_not_wrapped :
  (_make_request "GET" "/athlete/activities" [] retry_fails_world).1
    = Raise (HTTPStatusError 500 "Internal Server Error")
  /\ (get_activities None false retry_fails_world).1
     = Raise (HTTPStatusError 500 "Internal Server Error")
  /\ is_strava_error (HTTPStatusError 500 "Internal Server Error") = false
  /\ (get_activities None false first_request_fails_world).1
     = Raise (StravaAPIError "API request failed: 500 - Internal Server Error").
Proof. repeat split; vm_compute; reflexivity. Qed.

(** ** Track Synthesizer *)

Lemma io_get_activity_by_id (P : request -> Prop) activity_id :
  (forall rq, is_refresh rq -> P rq) ->
  (forall rq base_url,
     is_call "GET" ("/activities/" +:+ pretty activity_id) [] base_url rq -> P rq) ->
  sound (io_step P) (get_activity_by_id activity_id).
Proof.
  intros HP HQ. unfold get_activity_by_id.
  apply sound_bind; [typeclasses eauto|by apply io_make_request|].
  intros j. apply sound_lift; [typeclasses eauto|]. by destruct j.
Qed.

Lemma io_get_activity_streams (P : request -> Prop) activity_id :
  (forall rq, is_refresh rq -> P rq) ->
  (forall rq base_url,
     is_call "GET" ("/activities/" +:+ pretty activity_id +:+ "/streams")
       [("keys", PStr streams_keys); ("key_by_type", PStr "true")] base_url rq ->
     P rq) ->
  sound (io_step P) (get_activity_streams activity_id).
Proof. intros HP HQ. unfold get_activity_streams. by apply io_make_request. Qed.

(** [download_gpx] once the metadata is there and no file is cached: the
    streams are fetched and either the missing position stream is
    reported or the track is written. *)
Lemma download_gpx_miss activity_id save_path activity_name w a w1 j w2 :
  get_activity_by_id activity_id w = (Ok a, w1) ->
  let name := or_default activity_name (Activity.name a) in
  let path := gpx_file_path (or_default save_path (gpx_storage_path (settings w))) name in
  files w1 !! path = None ->
  get_activity_streams activity_id w1 = (Ok j, w2) ->
  download_gpx activity_id save_path activity_name w
  = match Streams.latlng (json_streams j) with
    | None => (Raise (no_gps_data activity_id), w2)
    | Some latlngs =>
        (Ok path,
         with_files
           (<[path := mk_gpx name ("Strava Activity " +:+ pretty activity_id)
                        (build_points (Activity.start_date a) latlngs
                           (stream_data (Streams.time (json_streams j)))
                           (stream_data (Streams.altitude (json_streams j)))
                           (stream_data (Streams.heartrate (json_streams j)))
                           (stream_data (Streams.cadence (json_streams j))))]>
              (files w2)) w2)
    end.
Proof.
  intros Ha name path Hmiss Hstreams. unfold download_gpx.
  unfold bind at 1. unfold gets at 1.
  rewrite (bind_run_ok _ _ _ _ _ Ha).
  unfold bind at 1. unfold gets at 1. fold name. fold path.
  rewrite Hmiss. rewrite bool_decide_eq_false_2 by (by intros [? ?]).
  rewrite (bind_run_ok _ _ _ _ _ Hstreams).
  by destruct (Streams.latlng (json_streams j)).
Qed.

(** C6.  On a cache miss, a stream bundle without the position stream
    makes [download_gpx] raise the no-GPS-data StravaAPIError whatever the
    other streams hold, and the track directory is as it was. *)
Theorem download_gpx_without_latlng activity_id save_path activity_name
    w a w1 j w2 :
  get_activity_by_id activity_id w = (Ok a, w1) ->
  files w1 !! gpx_file_path
                (or_default save_path (gpx_storage_path (settings w)))
                (or_default activity_name (Activity.name a)) = None ->
  get_activity_streams activity_id w1 = (Ok j, w2) ->
  Streams.latlng (json_streams j) = None ->
  download_gpx activity_id save_path activity_name w
    = (Raise (no_gps_data activity_id), w2)
  /\ is_strava_error (no_gps_data activity_id) = true
  /\ files w2 = files w.
Proof.
  intros Ha Hmiss Hstreams Hno.
  rewrite (download_gpx_miss _ _ _ _ _ _ _ _ Ha Hmiss Hstreams), Hno.
  split; [done|]. split; [done|].
  apply (sound_run _ _ _ _ _
           (io_get_activity_by_id (fun _ => True) _ (fun _ _ => I) (fun _ _ _ => I)))
    in Ha.
  apply (sound_run _ _ _ _ _
           (io_get_activity_streams (fun _ => True) _ (fun _ _ => I) (fun _ _ _ => I)))
    in Hstreams.
  destruct Ha, Hstreams. congruence.
Qed.

(** C6, witness: heart rate, cadence, altitude and time but no position;
    the call raises and the track directory stays empty. *)
Lemma download_gpx_without_latlng_witness :
  exists w2,
    download_gpx 42 None None no_position_world
      = (Raise (StravaAPIError
                  "No GPS data (latlng stream) available for activity 42"), w2)
    /\ files w2 = ∅.
Proof.
  eexists.
  destruct (download_gpx_without_latlng 42 None None no_position_world ride
              (with_remote [Response 200 "" (Some (JStreams streams_without_position))]
                 [call_request no_position_world "GET" "/activities/42" []]
                 no_position_world)
              (JStreams streams_without_position)
              (with_remote []
                 [call_request no_position_world "GET" "/activities/42" [];
                  call_request no_position_world "GET" "/activities/42/streams"
                    [("keys", PStr streams_keys); ("key_by_type", PStr "true")]]
                 no_position_world))
    as (H1 & _ & H3).
  - reflexivity.
  - reflexivity.
  - reflexivity.
  - reflexivity.
  - split; [exact H1|exact H3].
Defined.




Lemma metadata_traffic_not_streams activity_id rq :
  metadata_traffic activity_id rq -> ~ is_streams_call activity_id rq.
Proof.
  intros [[Hm _]|[b (_ & _ & Hp)]] [b' (Hm' & _ & Hp')]; congruence.
Qed.

Lemma io_get_activity_by_id_traffic activity_id :
  sound (io_step (metadata_traffic activity_id)) (get_activity_by_id activity_id).
Proof.
  apply io_get_activity_by_id.
  - intros rq H. by left.
  - intros rq b H. right. by exists b.
Qed.

Lemma or_default_some name fallback :
  truthy_str name = true -> or_default (Some name) fallback = name.
Proof. unfold or_default. by intros ->. Qed.

Lemma config_gpx_storage_path s s' :
  config s = config s' -> gpx_storage_path s = gpx_storage_path s'.
Proof. by intros [= _ _ _ _ ?]. Qed.

Lemma config_base_url s s' :
  config s = config s' -> strava_api_base_url s = strava_api_base_url s'.
Proof. by intros [= _ _ _ ? _]. Qed.

(** A call that returns a path fetched the metadata, derived the path
    from the directory and the name in effect, and leaves a file there. *)
Lemma download_gpx_ok_inv activity_id save_path activity_name w p w1 :
  download_gpx activity_id save_path activity_name w = (Ok p, w1) ->
  exists a wa,
    get_activity_by_id activity_id w = (Ok a, wa)
    /\ p = gpx_file_path (or_default save_path (gpx_storage_path (settings w)))
             (or_default activity_name (Activity.name a))
    /\ is_Some (files w1 !! p)
    /\ gpx_storage_path (settings w1) = gpx_storage_path (settings w).
Proof.
  intros H. unfold download_gpx in H.
  apply bind_ok_inv in H as (d & w0 & H0 & H).
  apply gets_inv in H0 as [[= ->] ->].
  apply bind_ok_inv in H as (a & wa & Ha & H).
  exists a, wa. split; [done|].
  apply (sound_run _ _ _ _ _ (io_get_activity_by_id_traffic _)) in Ha.
  apply bind_ok_inv in H as (cached & wc & Hc & H).
  apply gets_inv in Hc as [[= ->] ->].
  case_bool_decide as Hhit.
  - inversion H; subst. split; [done|]. split; [done|].
    destruct Ha as [Hs _ _ _ _ _ _ _]. by apply config_gpx_storage_path.
  - apply bind_ok_inv in H as (j & ws & Hs & H).
    apply (sound_run _ _ _ _ _
             (io_get_activity_streams (fun _ => True) _ (fun _ _ => I)
                (fun _ _ _ => I))) in Hs.
    destruct (Streams.latlng (json_streams j)); [|discriminate].
    apply bind_ok_inv in H as ([] & wm & Hm & H).
    inversion Hm; subst wm. inversion H; subst. simpl.
    split; [done|]. split; [by rewrite lookup_insert_eq|].
    destruct Ha as [Ha _ _ _ _ _ _ _], Hs as [Hs _ _ _ _ _ _ _].
    apply config_gpx_storage_path in Ha, Hs. congruence.
Qed.

(** With a file at the derived path, [download_gpx] is the metadata
    fetch followed by the path. *)
Lemma download_gpx_hit activity_id save_path activity_name w a w' :
  get_activity_by_id activity_id w = (Ok a, w') ->
  let path := gpx_file_path (or_default save_path (gpx_storage_path (settings w)))
                (or_default activity_name (Activity.name a)) in
  is_Some (files w !! path) ->
  download_gpx activity_id save_path activity_name w = (Ok path, w').
Proof.
  intros Ha path Hfile. unfold download_gpx.
  unfold bind at 1. unfold gets at 1.
  rewrite (bind_run_ok _ _ _ _ _ Ha). fold path.
  apply (sound_run _ _ _ _ _ (io_get_activity_by_id_traffic _)) in Ha.
  unfold bind at 1. unfold gets at 1.
  destruct Ha as [_ Hf _ _ _ _ _ _]. rewrite Hf.
  by rewrite bool_decide_eq_true_2.
Qed.

(** Without the metadata there is no path: what the metadata fetch raises
    is what [download_gpx] raises. *)
Lemma download_gpx_no_metadata activity_id save_path activity_name w e w' :
  get_activity_by_id activity_id w = (Raise e, w') ->
  download_gpx activity_id save_path activity_name w = (Raise e, w').
Proof.
  intros Ha. unfold download_gpx. unfold bind at 1. unfold gets at 1.
  unfold bind at 1. by rewrite Ha.
Qed.

Lemma metadata_fetch_no_streams activity_id w r w' :
  get_activity_by_id activity_id w = (r, w') ->
  exists new,
    log w' = log w ++ new
    /\ Forall (fun rq => ~ is_streams_call activity_id rq) new.
Proof.
  intros Ha.
  apply (sound_run _ _ _ _ _ (io_get_activity_by_id_traffic _)) in Ha.
  destruct Ha as [_ _ _ _ _ _ _ (new & Hlog & Hnew)].
  exists new. split; [done|].
  eapply Forall_impl; [done|]. apply metadata_traffic_not_streams.
Qed.

Lemma or_default_name activity_name a :
  or_default activity_name (Activity.name a) = name_in_effect activity_name a.
Proof. by destruct activity_name as [[|c n]|]. Qed.

Lemma or_default_directory save_path w :
  or_default save_path (gpx_storage_path (settings w))
  = directory_in_effect save_path w.
Proof. by destruct save_path as [[|c n]|]. Qed.

(** C2.  Whenever a file is at the path derived from the directory and
    the name in effect (the name given, or the name of the fetched
    metadata when none is given or it is empty), [download_gpx] returns
    that path once the metadata is fetched and sends no stream request.
    Hence, after a call has returned a path, a second call for the same
    activity id and directory, made while the track files and the
    storage path are as the first call left them, returns the same path
    when the name in effect is the same, and sends no stream request
    whatever its outcome. *)
Theorem download_gpx_second_call_cached :
  (forall activity_id save_path activity_name w a w',
     get_activity_by_id activity_id w = (Ok a, w') ->
     let path := gpx_file_path (directory_in_effect save_path w)
                   (name_in_effect activity_name a) in
     is_Some (files w !! path) ->
     download_gpx activity_id save_path activity_name w = (Ok path, w')
     /\ exists new,
          log w' = log w ++ new
          /\ Forall (fun rq => ~ is_streams_call activity_id rq) new)
  /\ (forall activity_id save_path name1 name2 w p w1 w2,
        download_gpx activity_id save_path name1 w = (Ok p, w1) ->
        files w2 = files w1 ->
        gpx_storage_path (settings w2) = gpx_storage_path (settings w1) ->
        exists a1 wa,
          get_activity_by_id activity_id w = (Ok a1, wa)
          /\ p = gpx_file_path (directory_in_effect save_path w)
                   (name_in_effect name1 a1)
          /\ (forall a2 w3,
                get_activity_by_id activity_id w2 = (Ok a2, w3) ->
                name_in_effect name2 a2 = name_in_effect name1 a1 ->
                download_gpx activity_id save_path name2 w2 = (Ok p, w3))
          /\ (forall r w3,
                download_gpx activity_id save_path name2 w2 = (r, w3) ->
                (forall a2 w',
                   get_activity_by_id activity_id w2 = (Ok a2, w') ->
                   name_in_effect name2 a2 = name_in_effect name1 a1) ->
                exists new,
                  log w3 = log w2 ++ new
                  /\ Forall (fun rq => ~ is_streams_call activity_id rq) new)).
Proof.
  split.
  - intros activity_id save_path activity_name w a w' Ha path Hfile.
    unfold path in *. rewrite <- or_default_name, <- or_default_directory in *.
    split; [by apply download_gpx_hit|]. by eapply metadata_fetch_no_streams.
  - intros activity_id save_path name1 name2 w p w1 w2 H1 Hfiles Hpath.
    apply download_gpx_ok_inv in H1 as (a1 & wa & Ha1 & Hp & Hfile & Hs1).
    exists a1, wa. split; [done|].
    split; [by rewrite <- or_default_name, <- or_default_directory|].
    assert (forall a2 w3,
              get_activity_by_id activity_id w2 = (Ok a2, w3) ->
              name_in_effect name2 a2 = name_in_effect name1 a1 ->
              download_gpx activity_id save_path name2 w2 = (Ok p, w3)) as Hsecond.
    { intros a2 w3 Ha2 Hname. rewrite <- !or_default_name in Hname.
      rewrite (download_gpx_hit _ save_path name2 _ _ _ Ha2).
      - by rewrite Hname, Hpath, Hs1, <- Hp.
      - by rewrite Hname, Hfiles, Hpath, Hs1, <- Hp. }
    split; [exact Hsecond|].
    intros r w3 Hr Hname.
    destruct (get_activity_by_id activity_id w2) as [[a2|e|] w'] eqn:Ha2.
    + rewrite (Hsecond a2 w' eq_refl (Hname a2 w' eq_refl)) in Hr.
      injection Hr as _ <-. by eapply metadata_fetch_no_streams.
    + rewrite (download_gpx_no_metadata _ _ _ _ _ _ Ha2) in Hr.
      injection Hr as _ <-. by eapply metadata_fetch_no_streams.
    + by apply (sound_total _ _ _ _ (io_get_activity_by_id_traffic _)) in Ha2.
Qed.

(** C2, witness: no name is given.  The first call fetches metadata and
    streams and writes the file named after the activity; the second
    returns the same path after the metadata fetch alone. *)
Lemma download_gpx_second_call_cached_witness :
  exists w1 w3,
    download_gpx 7 None None uneven_streams_world
      = (Ok "./data/gpx/Morning_Run.gpx", w1)
    /\ download_gpx 7 None None (second_call_world w1)
       = (Ok "./data/gpx/Morning_Run.gpx", w3)
    /\ length (log w1) = 2%nat /\ length (log w3) = 3%nat.
Proof.
  set (w1 := (download_gpx 7 None None uneven_streams_world).2).
  assert (download_gpx 7 None None uneven_streams_world
          = (Ok "./data/gpx/Morning_Run.gpx", w1)) as H1
    by (vm_compute; reflexivity).
  exists w1. eexists. split; [exact H1|].
  split.
  { destruct download_gpx_second_call_cached as [_ H].
    destruct (H 7 None None None uneven_streams_world _ w1 (second_call_world w1)
                H1 eq_refl eq_refl) as (a1 & wa & Ha1 & _ & H2 & _).
    injection Ha1 as <- _.
    eapply H2; vm_compute; reflexivity. }
  split; reflexivity.
Defined.

(** ** Activity Aggregator: the [after] re-check *)

Lemma filter_outcome_decided {A} (p : A -> option bool) (P : A -> Prop)
    `{!forall x, Decision (P x)} (l : list A) :
  Forall (fun x => p x = Some (bool_decide (P x))) l ->
  filter_outcome p l = Ok (filter P l).
Proof.
  induction 1 as [|x l Hx Hl IH]; simpl; [done|].
  rewrite Hx, IH, filter_cons. by case_bool_decide; destruct (decide (P x)).
Qed.

Lemma dt_gt_key a b :
  is_aware a = is_aware b ->
  dt_gt a b = Some (bool_decide (dt_key b < dt_key a)).
Proof.
  intros Hk. unfold dt_gt. rewrite (dt_compare_same _ _ Hk).
  destruct (Z.compare_spec (dt_key a) (dt_key b));
    f_equal; symmetry; first [apply bool_decide_eq_true_2; lia
                             |apply bool_decide_eq_false_2; lia].
Qed.

(** C8, as the code has it.  The re-check keeps exactly the activities
    whose start, as an epoch timestamp, is strictly greater than that of
    [after], and raises nothing, in three cases: [after] is naive and the
    first activity is aware (the timestamps are compared); [after] and
    every activity are aware; [after] and every activity are naive and the
    local clock maps later wall readings to later instants (in the last two
    the datetimes themselves are compared). *)
Theorem after_recheck_by_epoch mk after activities :
  (is_aware after = false
   /\ exists a0 rest, activities = a0 :: rest /\ kind a0 = true)
  \/ (is_aware after = true /\ Forall (fun a => kind a = true) activities)
  \/ (is_aware after = false /\ Forall (fun a => kind a = false) activities
      /\ forall x y, x < y -> mk x < mk y) ->
  after_recheck mk after activities = Ok (after_by_epoch mk after activities).
Proof.
  unfold after_recheck, after_by_epoch.
  intros [(Hn & a0 & rest & -> & Ha0)|[(Ha & Hall)|(Hn & Hall & Hmono)]].
  - rewrite Hn. unfold kind in Ha0. by rewrite Ha0.
  - rewrite Ha. simpl. apply filter_outcome_decided.
    eapply Forall_impl; [exact Hall|]. intros a Hka. simpl in *.
    unfold kind in Hka. rewrite dt_gt_key by congruence.
    unfold timestamp, dt_key, is_aware in *.
    destruct (tzinfo after), (tzinfo (Activity.start_date a)); done.
  - rewrite Hn. replace (negb false && _) with false.
    2: { destruct activities as [|a0 rest]; [done|].
         apply Forall_cons in Hall as [H0 _]. unfold kind in H0. by rewrite H0. }
    apply filter_outcome_decided.
    eapply Forall_impl; [exact Hall|]. intros a Hka. simpl in *.
    unfold kind in Hka. rewrite dt_gt_key by congruence.
    unfold timestamp, dt_key, is_aware in *.
    destruct (tzinfo after), (tzinfo (Activity.start_date a)); try done.
    f_equal. apply bool_decide_ext. split; [apply Hmono|].
    intros Hlt.
    destruct (Z.lt_trichotomy (wall after) (wall (Activity.start_date a)))
      as [|[Heq|Hgt]]; [done|rewrite Heq in Hlt; lia|apply Hmono in Hgt; lia].
Qed.

(** C8, witness: a naive [after] against aware start dates. *)
Lemma after_recheck_by_epoch_witness :
  after_recheck (fun x => x) (naive 15)
    [example_run 1 10 None; example_run 2 30 None; example_run 3 20 None]
  = Ok [example_run 2 30 None; example_run 3 20 None].
Proof.
  rewrite (after_recheck_by_epoch (fun x => x) (naive 15)
             [example_run 1 10 None; example_run 2 30 None; example_run 3 20 None]).
  - reflexivity.
  - left. split; [reflexivity|]. eexists _, _. split; reflexivity.
Defined.

(** C8, as stated, fails: with a timezone-aware [after] and an activity
    whose start date is naive the two datetimes are compared directly,
    which is a TypeError, in the re-check and so in [get_activities]. *)
Lemma after_recheck_aware_filter_naive_activity :
  after_recheck (fun x => x) (utc 100) [naive_run] = Raise TypeError
  /\ (get_activities (Some (filter_after (utc 100))) false
        (example_world [page_reply [naive_run]])).1 = Raise TypeError.
Proof. split; vm_compute; reflexivity. Qed.

(** ** Gear Resolver *)

Lemma succeeds_bind {A B} (m : M A) (k : A -> M B) :
  succeeds m -> (forall a, succeeds (k a)) -> succeeds (bind m k).
Proof.
  intros Hm Hk w. destruct (Hm w) as (a & w1 & Ha).
  destruct (Hk a w1) as (b & w2 & Hb). exists b, w2.
  by rewrite (bind_run_ok _ _ _ _ _ Ha).
Qed.

Lemma succeeds_for_each {A} (l : list A) (f : A -> M unit) :
  (forall x, succeeds (f x)) -> succeeds (for_each l f).
Proof.
  intros Hf. induction l as [|x l IH]; simpl.
  - intros w. by exists tt, w.
  - apply succeeds_bind; [apply Hf|by intros _].
Qed.

Lemma io_get_gear_by_id gear_id :
  sound (io_step (fun _ => True)) (get_gear_by_id gear_id).
Proof.
  unfold get_gear_by_id. apply sound_try_except; [typeclasses eauto| |].
  - apply sound_bind; [typeclasses eauto|by apply io_make_request|].
    intros j. apply sound_bind; [typeclasses eauto| |].
    + apply sound_lift; [typeclasses eauto|]. by destruct j.
    + intros g. apply sound_ret. typeclasses eauto.
  - intros e. apply sound_ret. typeclasses eauto.
Qed.

(** The lookup never raises: any exception of the request or of the
    parsing becomes [None], and the cache is not touched. *)
Lemma get_gear_by_id_swallows gear_id w :
  exists r w',
    get_gear_by_id gear_id w = (Ok r, w')
    /\ _gear_cache w' = _gear_cache w
    /\ forall e w1,
         _make_request "GET" ("/gear/" +:+ gear_id) [] w = (Raise e, w1) ->
         r = None /\ w' = w1.
Proof.
  destruct (get_gear_by_id gear_id w) as [r w'] eqn:E.
  pose proof (sound_run _ _ _ _ _ (io_get_gear_by_id gear_id) E) as Hstep.
  pose proof (sound_total _ _ w w' (io_get_gear_by_id gear_id)) as Htotal.
  pose proof E as E'.
  unfold get_gear_by_id, try_except in E.
  unfold bind at 1 in E.
  destruct (_make_request "GET" ("/gear/" +:+ gear_id) [] w) as [[j|e|] w1] eqn:Hreq.
  - unfold bind, lift in E. destruct (parse_gear j) as [g|e|] eqn:Hp.
    + inversion E; subst. eexists _, _. split; [done|].
      split; [by destruct Hstep|]. intros; discriminate.
    + inversion E; subst. eexists _, _. split; [done|].
      split; [by destruct Hstep|]. intros; discriminate.
    + by destruct j.
  - inversion E; subst. eexists _, _. split; [done|].
    split; [by destruct Hstep|]. intros e' w1' [= <- <-]. done.
  - inversion E; subst. by apply Htotal in E'.
Qed.

Lemma fetch_and_cache_gear_succeeds gear_id : succeeds (fetch_and_cache_gear gear_id).
Proof.
  intros w. unfold fetch_and_cache_gear.
  destruct (get_gear_by_id_swallows gear_id w) as (r & w' & Hr & _).
  rewrite (bind_run_ok _ _ _ _ _ Hr). destruct r; by eexists _, _.
Qed.

Lemma populate_gear_names_succeeds activities w :
  exists w',
    _populate_gear_names_for_activities activities w
    = (Ok (apply_gear_name (_gear_cache w') <$> activities), w').
Proof.
  unfold _populate_gear_names_for_activities.
  unfold bind at 1. unfold gets at 1. unfold bind at 1. unfold gets at 1.
  set (missing := missing_gear_ids (_gear_cache w) activities).
  assert (succeeds (if bool_decide (missing = ∅) then ret tt
                    else for_each (set_order w missing) fetch_and_cache_gear)) as Hs.
  { case_bool_decide.
    - intros w0. by exists tt, w0.
    - apply succeeds_for_each, fetch_and_cache_gear_succeeds. }
  destruct (Hs w) as ([] & w' & Hrun).
  rewrite (bind_run_ok _ _ _ _ _ Hrun). by exists w'.
Qed.

(** A name is written onto an activity only from a cache entry for its
    gear id. *)
Lemma apply_gear_name_unresolved cache a g :
  Activity.gear_id a = Some g -> cache !! g = None -> apply_gear_name cache a = a.
Proof. unfold apply_gear_name. intros -> ->. by destruct (truthy_str g). Qed.

Lemma apply_gear_name_with_cached_name cache a :
  apply_gear_name cache a = with_cached_name cache a.
Proof.
  unfold apply_gear_name, with_cached_name.
  destruct a as [i n s d [[|c g]|] gn]; simpl; try done.
Qed.

(** A lookup that returns a gear was answered with that gear. *)
Lemma get_gear_by_id_some gear_id w gear w' :
  get_gear_by_id gear_id w = (Ok (Some gear), w') ->
  exists c t, Response c t (Some (JGear gear)) ∈ script w.
Proof.
  unfold get_gear_by_id. intros H.
  apply try_except_ok_inv in H as [H|(e & w1 & _ & H)]; [|discriminate].
  apply bind_ok_inv in H as (j & w1 & Hreq & H).
  apply make_request_ok_inv in Hreq as (_ & c & t & Hin).
  apply bind_ok_inv in H as (g & w2 & Hparse & H).
  apply lift_inv in Hparse as [Hparse _].
  injection H as <- _. exists c, t.
  destruct j; try discriminate. by injection Hparse as <-.
Qed.

(** The lookups leave the cache entry of [g] alone as long as no reply
    still to come is a gear with that id. *)
Lemma fetch_gears_lookup g gear_ids : forall w,
  Forall (no_gear_reply_for g) (script w) ->
  exists w',
    for_each gear_ids fetch_and_cache_gear w = (Ok tt, w')
    /\ _gear_cache w' !! g = _gear_cache w !! g.
Proof.
  induction gear_ids as [|gear_id ids IH]; intros w Hno; simpl.
  - by exists w.
  - unfold bind at 1. unfold fetch_and_cache_gear at 1.
    destruct (get_gear_by_id_swallows gear_id w) as (r & w1 & Hr & Hc & _).
    pose proof (sound_run _ _ _ _ _ (io_get_gear_by_id gear_id) Hr) as Hstep.
    assert (Forall (no_gear_reply_for g) (script w1)) as Hno1.
    { destruct Hstep as [_ _ _ _ _ _ [used Hused] _].
      rewrite Hused in Hno. by apply Forall_app in Hno as [_ ?]. }
    rewrite (bind_run_ok _ _ _ _ _ Hr). destruct r as [gear|].
    + apply get_gear_by_id_some in Hr as (c & t & Hin).
      rewrite Forall_forall in Hno. specialize (Hno _ Hin c t gear eq_refl).
      unfold modify.
      destruct (IH (with_gear_cache
                      (<[Gear.id gear := Gear.name gear]> (_gear_cache w1)) w1) Hno1)
        as (w' & Hrun & Hg).
      exists w'. split; [done|].
      rewrite Hg. simpl. by rewrite lookup_insert_ne, Hc.
    + unfold ret at 1. destruct (IH w1 Hno1) as (w' & Hrun & Hg).
      exists w'. split; [done|]. by rewrite Hg, Hc.
Qed.

Lemma populate_gear_names_run activities w :
  exists w',
    _populate_gear_names_for_activities activities w
    = (Ok (apply_gear_name (_gear_cache w') <$> activities), w')
    /\ forall g,
         Forall (no_gear_reply_for g) (script w) ->
         _gear_cache w' !! g = _gear_cache w !! g.
Proof.
  destruct (populate_gear_names_succeeds activities w) as [w' Hrun].
  exists w'. split; [done|]. intros g Hno.
  unfold _populate_gear_names_for_activities in Hrun.
  unfold bind at 1 in Hrun. unfold gets at 1 in Hrun.
  unfold bind at 1 in Hrun. unfold gets at 1 in Hrun.
  unfold bind at 1 in Hrun.
  case_bool_decide.
  - unfold ret at 1, bind, gets in Hrun. by injection Hrun as _ <-.
  - destruct (fetch_gears_lookup g
                (set_order w (missing_gear_ids (_gear_cache w) activities)) w Hno)
      as (w1 & Hloop & Hg).
    rewrite Hloop in Hrun. unfold bind, gets, ret in Hrun.
    by injection Hrun as _ <-.
Qed.

Lemma enrichment_always_returns activity_filter all_pages
    w data w1 activities :
  fetch_activities_data (build_params (mktime w) activity_filter) all_pages w
    = (Ok data, w1) ->
  map_outcome parse_item data = Ok activities ->
  exists w2,
    get_activities activity_filter all_pages w
    = (filter_and_sort (mktime w) activity_filter
         (apply_gear_name (_gear_cache w2) <$> activities), w2).
Proof.
  intros Hfetch Hparse.
  unfold get_activities. unfold bind at 1. unfold gets at 1.
  rewrite (bind_run_ok _ _ _ _ _ Hfetch). unfold enrich_filter_sort.
  unfold bind at 1. unfold lift at 1. rewrite Hparse.
  destruct activities as [|a activities].
  - exists w1. done.
  - destruct (populate_gear_names_succeeds (a :: activities) w1) as [w2 Hp].
    exists w2. by rewrite (bind_run_ok _ _ _ _ _ Hp).
Qed.

Lemma enrichment_run activity_filter all_pages w data w1 activities :
  fetch_activities_data (build_params (mktime w) activity_filter) all_pages w
    = (Ok data, w1) ->
  map_outcome parse_item data = Ok activities ->
  exists w2,
    get_activities activity_filter all_pages w
    = (filter_and_sort (mktime w) activity_filter
         (apply_gear_name (_gear_cache w2) <$> activities), w2)
    /\ forall g,
         Forall (no_gear_reply_for g) (script w1) ->
         _gear_cache w2 !! g = _gear_cache w1 !! g.
Proof.
  intros Hfetch Hparse.
  unfold get_activities. unfold bind at 1. unfold gets at 1.
  rewrite (bind_run_ok _ _ _ _ _ Hfetch). unfold enrich_filter_sort.
  unfold bind at 1. unfold lift at 1. rewrite Hparse.
  destruct activities as [|a activities].
  - exists w1. done.
  - destruct (populate_gear_names_run (a :: activities) w1) as (w2 & Hp & Hg).
    exists w2. by rewrite (bind_run_ok _ _ _ _ _ Hp).
Qed.

(** C9, as the code has it.  Once the pages are fetched and parsed,
    [get_activities] gets past the gear enrichment whatever the gear
    lookups do: its outcome is that of filtering and sorting the
    activities, each with the cached name of its gear when its gear id is
    in the cache by then, and as it was parsed otherwise; no placeholder
    is written.  A lookup never raises: a failed request or an unparsable
    body gives [None] and leaves the cache as it was.  A gear id that was
    not in the cache is still not in it afterwards when no reply to the
    lookups is a gear with that id, so that an activity with such a gear
    id keeps the gear name of its payload. *)
Theorem get_activities_swallows_gear_failures activity_filter all_pages
    w data w1 activities :
  fetch_activities_data (build_params (mktime w) activity_filter) all_pages w
    = (Ok data, w1) ->
  map_outcome parse_item data = Ok activities ->
  exists w2,
    get_activities activity_filter all_pages w
    = (filter_and_sort (mktime w) activity_filter
         (with_cached_name (_gear_cache w2) <$> activities), w2)
    /\ (forall a g,
          a ∈ activities -> Activity.gear_id a = Some g ->
          _gear_cache w1 !! g = None ->
          Forall (no_gear_reply_for g) (script w1) ->
          _gear_cache w2 !! g = None
          /\ with_cached_name (_gear_cache w2) a = a)
    /\ (forall gear_id w0, exists r w0',
          get_gear_by_id gear_id w0 = (Ok r, w0')
          /\ _gear_cache w0' = _gear_cache w0
          /\ (forall e w',
                _make_request "GET" ("/gear/" +:+ gear_id) [] w0 = (Raise e, w') ->
                r = None /\ w0' = w')
          /\ (r = None -> fetch_and_cache_gear gear_id w0 = (Ok tt, w0'))).
Proof.
  intros Hfetch Hparse.
  destruct (enrichment_run activity_filter all_pages
              w data w1 activities Hfetch Hparse) as (w2 & Hrun & Hcache).
  exists w2. split; [|split].
  - rewrite Hrun. do 2 f_equal. apply list_fmap_ext.
    intros _ a _. apply apply_gear_name_with_cached_name.
  - intros a g _ Hg Hnone Hno.
    assert (_gear_cache w2 !! g = None) as Hnone2 by (by rewrite Hcache).
    split; [done|].
    rewrite <- apply_gear_name_with_cached_name.
    by apply (apply_gear_name_unresolved _ _ g).
  - intros gear_id w0.
    destruct (get_gear_by_id_swallows gear_id w0) as (r & w0' & Hr & Hc & He).
    exists r, w0'. split; [done|]. split; [done|]. split; [exact He|].
    intros ->. unfold fetch_and_cache_gear. by rewrite (bind_run_ok _ _ _ _ _ Hr).
Qed.

(** C9, witness: the gear lookup for "g1" is answered 404; the call
    returns, the gear is not cached and the activity has no gear name. *)
Lemma get_activities_swallows_gear_failures_witness :
  exists w2,
    get_activities None false unsorted_page_world
    = (Ok [example_run 2 30 (Some "g1"); example_run 3 20 None;
           example_run 1 10 None], w2)
    /\ _gear_cache w2 !! "g1" = None.
Proof.
  destruct (get_activities_swallows_gear_failures None false unsorted_page_world
              (Some <$> [example_run 1 10 None; example_run 2 30 (Some "g1");
                         example_run 3 20 None])
              (with_remote [Response 404 "Not Found" None]
                 [call_request unsorted_page_world "GET" "/athlete/activities" []]
                 unsorted_page_world)
              [example_run 1 10 None; example_run 2 30 (Some "g1");
               example_run 3 20 None] eq_refl eq_refl) as (w2 & Hrun & Hkeep & _).
  exists w2.
  destruct (Hkeep (example_run 2 30 (Some "g1")) "g1") as [Hnone Hsame].
  - apply list_elem_of_further, list_elem_of_here.
  - reflexivity.
  - reflexivity.
  - repeat constructor. intros c t gear. discriminate.
  - split; [|exact Hnone]. rewrite Hrun. f_equal.
    assert ((get_activities None false unsorted_page_world).2 = w2) as Hw
      by (by rewrite Hrun).
    vm_compute in Hw. subst w2. vm_compute. reflexivity.
Defined.

(** C9, as stated, fails.  No placeholder is written, and a failed
    lookup does not decide the name.  The lookup of the gear of
    [named_run] is answered 404, and the activity comes back with the
    name its payload carried.  In [crossed_gear_world] the lookup of "g1"
    is answered 404 and the lookup of "g2" by a gear whose id is "g1":
    the run whose lookup failed comes back named "Shoes". *)
Lemma get_activities_failed_lookup_named :
  (get_gear_by_id "g1" (fetch_activities_data [] false named_run_world).2).1
    = Ok None
  /\ (get_activities None false named_run_world).1 = Ok [named_run]
  /\ Activity.gear_name named_run = Some "Old pair"
  /\ (get_gear_by_id "g1" (fetch_activities_data [] false crossed_gear_world).2).1
     = Ok None
  /\ (get_activities None false crossed_gear_world).1
     = Ok [Activity.mk 1 "Morning Run" "Run" (utc 20) (Some "g1") (Some "Shoes");
           example_run 2 10 (Some "g2")].
Proof. repeat split; vm_compute; reflexivity. Qed.

(** ** Running activities *)

Lemma map_outcome_length {A B} (f : A -> outcome B) l l' :
  map_outcome f l = Ok l' -> length l' = length l.
Proof.
  revert l'. induction l as [|x l IH]; simpl; intros l'.
  - by intros [= <-].
  - destruct (f x); [|done..]. destruct (map_outcome f l); [|done..].
    intros [= <-]. simpl. f_equal. by apply IH.
Qed.

Lemma insert_desc_length x l : length (insert_desc x l) = S (length l).
Proof.
  induction l as [|y l IH]; simpl; [done|].
  destruct (dt_lt _ _) as [[]|]; simpl; by rewrite ?IH.
Qed.

Lemma sort_desc_length l : length (sort_desc l) = length l.
Proof.
  induction l as [|x l IH]; simpl; [done|]. by rewrite insert_desc_length, IH.
Qed.

(** What a returning [get_activities] went through. *)
Lemma get_activities_ok_inv activity_filter all_pages w l w' :
  get_activities activity_filter all_pages w = (Ok l, w') ->
  exists data w1 activities cache,
    fetch_activities_data (build_params (mktime w) activity_filter) all_pages w
      = (Ok data, w1)
    /\ map_outcome parse_item data = Ok activities
    /\ filter_and_sort (mktime w) activity_filter
         (apply_gear_name cache <$> activities) = Ok l.
Proof.
  intros H.
  unfold get_activities in H. unfold bind at 1 in H. unfold gets at 1 in H.
  apply bind_ok_inv in H as (data & w1 & Hfetch & H).
  destruct (map_outcome parse_item data) as [activities|e|] eqn:Hparse.
  2,3: unfold enrich_filter_sort in H; unfold bind at 1 in H;
       unfold lift at 1 in H; rewrite Hparse in H; discriminate.
  destruct (enrichment_always_returns activity_filter all_pages
              w data w1 activities Hfetch Hparse) as [w2 Hrun].
  unfold get_activities in Hrun. unfold bind at 1 in Hrun. unfold gets at 1 in Hrun.
  rewrite (bind_run_ok _ _ _ _ _ Hfetch), H in Hrun.
  exists data, w1, activities, (_gear_cache w2).
  split; [done|]. split; [done|]. by inversion Hrun.
Qed.

Lemma run_filter_and_sort mk per_page activities l :
  filter_and_sort mk (Some (run_filter per_page)) activities = Ok l ->
  l = sort_desc (filter (fun a => Activity.sport_type a = "Run") activities).
Proof.
  unfold filter_and_sort, apply_filters, run_filter, sort_by_start_date_desc.
  simpl. destruct (mixed_awareness _); [done|]. by intros [= <-].
Qed.

Lemma run_filter_and_sort_result mk per_page activities l :
  filter_and_sort mk (Some (run_filter per_page)) activities = Ok l ->
  Forall is_run l /\ (length l <= length activities)%nat.
Proof.
  intros ->%run_filter_and_sort. split.
  - apply sort_desc_Forall, Forall_forall. intros a Ha.
    by apply list_elem_of_filter in Ha as [Ha _].
  - rewrite sort_desc_length. apply length_filter.
Qed.

Lemma fetch_single_page params w data w1 :
  fetch_activities_data params false w = (Ok data, w1) ->
  exists j c t, Response c t (Some j) ∈ script w /\ data = json_items j.
Proof.
  unfold fetch_activities_data. intros H.
  apply bind_ok_inv in H as (j & w2 & Hreq & H).
  apply make_request_ok_inv in Hreq as [_ (c & t & Hin)].
  inversion H; subst. by exists j, c, t.
Qed.

Lemma parse_keys_ok {K} (ks : list K) activities :
  map_outcome parse_item ((fun _ => None) <$> ks) = Ok activities ->
  activities = [].
Proof. destruct ks; simpl; [by intros [= <-]|done]. Qed.

Lemma parsed_page_length n j activities :
  page_at_most n (Response 200 "" (Some j)) ->
  0 <= n ->
  map_outcome parse_item (json_items j) = Ok activities ->
  Z.of_nat (length activities) <= n.
Proof.
  intros Hpage Hn Hparse.
  destruct j as [l| | | |];
    try (unfold json_items in Hparse; apply parse_keys_ok in Hparse as ->;
         simpl; lia).
  rewrite (map_outcome_length _ _ _ Hparse). simpl in *. by rewrite length_fmap.
Qed.

(** C10, as the code has it.  For a limit of at least 1, when no array of
    activities the remote end sends is longer than a limit of at most 200,
    the list [get_running_activities] returns has at most [limit] entries,
    all of sport type "Run".  Up to 200 it is the result of one
    [get_activities] call for a single page of size [limit] filtered on
    "Run"; above 200 it is the first [limit] entries of the result of
    fetching all pages with the same filter. *)
Theorem get_running_activities_limit limit w l w' :
  1 <= limit ->
  (limit <= 200 -> Forall (page_at_most limit) (script w)) ->
  get_running_activities (Some limit) w = (Ok l, w') ->
  Z.of_nat (length l) <= limit
  /\ Forall is_run l
  /\ (limit <= 200 ->
      get_activities (Some (run_filter limit)) false w = (Ok l, w')
      /\ build_params (mktime w) (Some (run_filter limit))
         = [("page", PInt 1); ("per_page", PInt limit)])
  /\ (200 < limit ->
      exists activities,
        get_activities (Some (run_filter 30)) true w = (Ok activities, w')
        /\ l = take (Z.to_nat limit) activities).
Proof.
  intros Hpos Hpages H. unfold get_running_activities in H. simpl in H.
  replace (truthy_int limit) with true in H
    by (unfold truthy_int; destruct (Z.eqb_spec limit 0); [lia|done]).
  simpl in H. destruct (Z.leb_spec limit 200) as [Hle|Hgt].
  - unfold new_ActivityFilter, ActivityFilter.valid in H. simpl in H.
    replace (1 <=? limit) with true in H by (symmetry; by apply Z.leb_le).
    replace (limit <=? 200) with true in H by (symmetry; by apply Z.leb_le).
    simpl in H. fold (run_filter limit) in H.
    assert (get_activities (Some (run_filter limit)) false w = (Ok l, w')) as Hget
      by exact H.
    clear H. pose proof Hget as H.
    apply get_activities_ok_inv in H
      as (data & w1 & activities & cache & Hfetch & Hparse & Hsort).
    apply run_filter_and_sort_result in Hsort as [Hruns Hlen].
    rewrite length_fmap in Hlen.
    apply fetch_single_page in Hfetch as (j & c & t & Hin & ->).
    assert (page_at_most limit (Response 200 "" (Some j))) as Hpage.
    { specialize (Hpages Hle). rewrite Forall_forall in Hpages.
      by apply Hpages in Hin. }
    pose proof (parsed_page_length limit j activities Hpage ltac:(lia) Hparse).
    split; [lia|]. split; [done|]. split; [by intros _|]. lia.
  - unfold new_ActivityFilter, ActivityFilter.valid in H. simpl in H.
    fold (run_filter 30) in H.
    apply bind_ok_inv in H as (f & w0 & Hf & H).
    inversion Hf; subst f w0; clear Hf.
    apply bind_ok_inv in H as (activities & w2 & Hget & H).
    assert (l = take (Z.to_nat limit) activities /\ w' = w2) as [-> ->].
    { destruct (Z.ltb_spec limit (Z.of_nat (length activities))).
      - by inversion H.
      - inversion H; subst. split; [|done]. rewrite take_ge; [done|lia]. }
    pose proof Hget as Hinv.
    apply get_activities_ok_inv in Hinv
      as (data & w1 & acts & cache & _ & _ & Hsort).
    apply run_filter_and_sort_result in Hsort as [Hruns _].
    split; [rewrite length_take; lia|]. split; [by apply Forall_take|].
    split; [lia|]. intros _. by exists activities.
Qed.

(** C10, witness: a page of two runs and a ride, with the limit 3. *)
Lemma get_running_activities_limit_witness :
  exists w',
    get_running_activities (Some 3) mixed_page_world
    = (Ok [example_run 3 20 None; example_run 1 10 None], w')
    /\ Forall is_run [example_run 3 20 None; example_run 1 10 None].
Proof.
  eexists.
  assert (get_running_activities (Some 3) mixed_page_world
          = (Ok [example_run 3 20 None; example_run 1 10 None],
             (get_running_activities (Some 3) mixed_page_world).2)) as Hrun
    by (vm_compute; reflexivity).
  split; [exact Hrun|].
  refine (proj1 (proj2 (get_running_activities_limit 3 mixed_page_world _ _ _ _ Hrun))).
  - lia.
  - intros _. repeat constructor. simpl. lia.
Defined.

(** C10, as stated, fails at the limit 0: it counts as no limit, all
    pages are fetched and every run comes back. *)
Lemma get_running_activities_zero_limit :
  (get_running_activities (Some 0) mixed_page_world).1
  = Ok [example_run 3 20 None; example_run 1 10 None].
Proof. vm_compute. reflexivity. Qed.

(** ** The loop budget is never the reason a call ends

    Every round of the paging loop that goes on has consumed a reply, so
    the budget of one round more than there are replies is not used up:
    no method of the model ends in [Diverge]. *)

Lemma page_loop_total fuel : forall params k acc w w',
  (length (script w) < fuel)%nat ->
  page_loop fuel params k acc w <> (Diverge, w').
Proof.
  induction fuel as [|fuel IH]; intros params k acc w w' Hfuel; [lia|].
  cbn [page_loop]. unfold bind at 1.
  destruct (_make_request "GET" "/athlete/activities"
              (dict_set "page" (PInt k) params) w) as [[j|e|] w1] eqn:Hreq.
  - apply make_request_ok_inv in Hreq as [Hlt _].
    destruct (json_items j) as [|x data]; [done|].
    destruct (_ <? _)%nat; [done|]. apply IH. lia.
  - done.
  - by apply (sound_total _ _ _ _
                (io_make_request (fun _ => True) _ _ _ (fun _ _ => I)
                   (fun _ _ _ => I))) in Hreq.
Qed.

Lemma fetch_activities_data_total params all_pages w w' :
  fetch_activities_data params all_pages w <> (Diverge, w').
Proof.
  unfold fetch_activities_data. destruct all_pages.
  - unfold bind at 1. unfold gets at 1. apply page_loop_total. lia.
  - unfold bind at 1.
    destruct (_make_request "GET" "/athlete/activities" params w)
      as [[j|e|] w1] eqn:Hreq; try done.
    by apply (sound_total _ _ _ _
                (io_make_request (fun _ => True) _ _ _ (fun _ _ => I)
                   (fun _ _ _ => I))) in Hreq.
Qed.

Lemma map_outcome_parse_total data : map_outcome parse_item data <> Diverge.
Proof.
  induction data as [|[a|] data IH]; simpl; [done| |done].
  by destruct (map_outcome parse_item data).
Qed.

Lemma filter_outcome_total {A} (p : A -> option bool) l :
  filter_outcome p l <> Diverge.
Proof.
  induction l as [|x l IH]; simpl; [done|].
  destruct (p x); [|done]. by destruct (filter_outcome p l).
Qed.

Lemma filter_and_sort_total mk activity_filter activities :
  filter_and_sort mk activity_filter activities <> Diverge.
Proof.
  unfold filter_and_sort, sort_by_start_date_desc.
  destruct activity_filter as [f|].
  - destruct (apply_filters mk f activities) eqn:E; try done.
    + by destruct (mixed_awareness _).
    + unfold apply_filters, after_recheck in E.
      destruct (ActivityFilter.after f); [|done].
      destruct (_ && _); [done|]. by apply filter_outcome_total in E.
  - by destruct (mixed_awareness _).
Qed.

Lemma get_activities_total activity_filter all_pages w w' :
  get_activities activity_filter all_pages w <> (Diverge, w').
Proof.
  unfold get_activities. unfold bind at 1. unfold gets at 1. unfold bind at 1.
  destruct (fetch_activities_data _ all_pages w) as [[data|e|] w1] eqn:Hfetch;
    [|done|by apply fetch_activities_data_total in Hfetch].
  destruct (map_outcome parse_item data) as [activities|e|] eqn:Hparse.
  - destruct (enrichment_always_returns activity_filter all_pages
                w data w1 activities Hfetch Hparse) as [w2 Hrun].
    unfold get_activities in Hrun. unfold bind at 1 in Hrun.
    unfold gets at 1 in Hrun. rewrite (bind_run_ok _ _ _ _ _ Hfetch) in Hrun.
    rewrite Hrun. intros [= H _]. by apply filter_and_sort_total in H.
  - unfold enrich_filter_sort. unfold bind at 1. unfold lift at 1.
    by rewrite Hparse.
  - by apply map_outcome_parse_total in Hparse.
Qed.

(** * Further properties *)

(** ** Activity Aggregator: what the filters and the enrichment give *)

Lemma filter_outcome_sublist {A} (p : A -> option bool) l l' :
  filter_outcome p l = Ok l' -> l' `sublist_of` l.
Proof.
  revert l'. induction l as [|x l IH]; simpl; intros l'.
  - by intros [= <-].
  - destruct (p x) as [b|]; [|done].
    destruct (filter_outcome p l) as [ys| |]; [|done..].
    intros [= <-]. destruct b; [apply sublist_skip|apply sublist_cons]; by apply IH.
Qed.

Lemma after_recheck_sublist mk after activities l :
  after_recheck mk after activities = Ok l -> l `sublist_of` activities.
Proof.
  unfold after_recheck. destruct (_ && _).
  - intros [= <-]. apply sublist_filter.
  - apply filter_outcome_sublist.
Qed.

(** Every activity that passes the local filters is one of those given
    and meets each filter that is set. *)
Lemma apply_filters_ok mk f activities l a :
  apply_filters mk f activities = Ok l ->
  a ∈ l ->
  a ∈ activities
  /\ (forall t, ActivityFilter.activity_type f = Some t -> truthy_str t = true ->
        Activity.sport_type a = t)
  /\ (ActivityFilter.has_gear f = Some true -> Activity.gear_id a <> None)
  /\ (ActivityFilter.has_gear f = Some false -> Activity.gear_id a = None)
  /\ (forall g, ActivityFilter.gear_id f = Some g -> truthy_str g = true ->
        Activity.gear_id a = Some g).
Proof.
  unfold apply_filters. intros H Ha.
  match type of H with
  | match _ with Some after => after_recheck _ _ ?l3 | None => _ end = _ =>
      assert (a ∈ l3) as Hin
  end.
  { destruct (ActivityFilter.after f) as [after|].
    - eapply elem_of_sublist; [done|]. by eapply after_recheck_sublist.
    - by inversion H; subst. }
  clear H Ha.
  destruct (ActivityFilter.activity_type f) as [t|],
           (ActivityFilter.has_gear f) as [[]|],
           (ActivityFilter.gear_id f) as [g|];
    try destruct (truthy_str t) eqn:Ht; try destruct (truthy_str g) eqn:Hg;
    repeat match goal with
           | H : _ ∈ filter _ _ |- _ =>
               let P := fresh "P" in apply list_elem_of_filter in H as [P H]
           end;
    repeat split; try done; intros; simplify_eq; first [done|congruence].
Qed.

Lemma insert_desc_Permutation x l : insert_desc x l ≡ₚ x :: l.
Proof.
  induction l as [|y l IH]; simpl; [done|].
  destruct (dt_lt _ _) as [[]|]; [|done..].
  rewrite IH. apply perm_swap.
Qed.

Lemma sort_desc_Permutation l : sort_desc l ≡ₚ l.
Proof.
  induction l as [|x l IH]; simpl; [done|].
  by rewrite insert_desc_Permutation, IH.
Qed.

(** A returning [get_activities], with the cache it ended with. *)
Lemma get_activities_ok_enriched activity_filter all_pages w l w' :
  get_activities activity_filter all_pages w = (Ok l, w') ->
  exists data w1 activities,
    fetch_activities_data (build_params (mktime w) activity_filter) all_pages w
      = (Ok data, w1)
    /\ map_outcome parse_item data = Ok activities
    /\ filter_and_sort (mktime w) activity_filter
         (apply_gear_name (_gear_cache w') <$> activities) = Ok l.
Proof.
  intros H. pose proof H as H0.
  unfold get_activities in H. unfold bind at 1 in H. unfold gets at 1 in H.
  apply bind_ok_inv in H as (data & w1 & Hfetch & H).
  destruct (map_outcome parse_item data) as [activities|e|] eqn:Hparse.
  2,3: unfold enrich_filter_sort in H; unfold bind at 1 in H;
       unfold lift at 1 in H; rewrite Hparse in H; discriminate.
  destruct (enrichment_always_returns activity_filter all_pages
              w data w1 activities Hfetch Hparse) as [w2 Hrun].
  rewrite H0 in Hrun. injection Hrun as Hl Hw. subst w2.
  by exists data, w1, activities.
Qed.

Lemma filter_and_sort_inv mk activity_filter activities l :
  filter_and_sort mk activity_filter activities = Ok l ->
  exists l0,
    match activity_filter with
    | Some f => apply_filters mk f activities
    | None => Ok activities
    end = Ok l0
    /\ l = sort_desc l0.
Proof.
  unfold filter_and_sort, sort_by_start_date_desc.
  destruct (match activity_filter with Some _ => _ | None => _ end) as [l0| |];
    [|done..].
  destruct (mixed_awareness l0); [done|]. intros [= <-]. by exists l0.
Qed.

Lemma apply_gear_name_gear_id cache a :
  Activity.gear_id (apply_gear_name cache a) = Activity.gear_id a.
Proof.
  unfold apply_gear_name. destruct (Activity.gear_id a) as [g|] eqn:Hg; [|done].
  destruct (truthy_str g); [|done]. by destruct (cache !! g).
Qed.

Lemma apply_gear_name_idemp cache a :
  apply_gear_name cache (apply_gear_name cache a) = apply_gear_name cache a.
Proof.
  unfold apply_gear_name at 1. rewrite apply_gear_name_gear_id.
  unfold apply_gear_name.
  destruct (Activity.gear_id a) as [g|] eqn:Hg; [|done].
  destruct (truthy_str g); [|done]. by destruct (cache !! g).
Qed.

(** X1.  Every activity [get_activities] returns meets each local filter
    that is set: its sport type is the [activity_type] asked for, it has a
    gear id when [has_gear] is true and none when it is false, and its
    gear id is the [gear_id] asked for. *)
Theorem get_activities_respects_filters f all_pages w l w' :
  get_activities (Some f) all_pages w = (Ok l, w') ->
  (forall t, ActivityFilter.activity_type f = Some t -> truthy_str t = true ->
     Forall (fun a => Activity.sport_type a = t) l)
  /\ (ActivityFilter.has_gear f = Some true ->
      Forall (fun a => Activity.gear_id a <> None) l)
  /\ (ActivityFilter.has_gear f = Some false ->
      Forall (fun a => Activity.gear_id a = None) l)
  /\ (forall g, ActivityFilter.gear_id f = Some g -> truthy_str g = true ->
        Forall (fun a => Activity.gear_id a = Some g) l).
Proof.
  intros H. apply get_activities_ok_enriched in H
    as (data & w1 & activities & _ & _ & H).
  apply filter_and_sort_inv in H as (l0 & Hf & ->).
  repeat split; intros; apply sort_desc_Forall, Forall_forall; intros a Ha;
    destruct (apply_filters_ok _ _ _ _ a Hf Ha) as (_ & H1 & H2 & H3 & H4); eauto.
Qed.

(** X1, witness: runs without gear, out of a page of three activities. *)
Lemma get_activities_respects_filters_witness :
  (get_activities (Some gearless_runs) false geared_page_world).1
    = Ok [example_run 2 30 None]
  /\ Forall (fun a => Activity.gear_id a = None) [example_run 2 30 None].
Proof.
  split; [vm_compute; reflexivity|].
  eapply (get_activities_respects_filters gearless_runs false geared_page_world).
  - vm_compute. reflexivity.
  - reflexivity.
Defined.

(** X2.  An [activity_type] or [gear_id] filter that is the empty string
    filters nothing: the call is the same as with the field left out. *)
Theorem get_activities_empty_string_filters before after page per_page
    activity_type has_gear gear_id all_pages w :
  activity_type = None \/ activity_type = Some "" ->
  gear_id = None \/ gear_id = Some "" ->
  get_activities
    (Some (ActivityFilter.mk before after page per_page activity_type has_gear
             gear_id)) all_pages w
  = get_activities
      (Some (ActivityFilter.mk before after page per_page None has_gear None))
      all_pages w.
Proof. by intros [-> | ->] [-> | ->]. Qed.

(** X2, witness: the empty sport type against a page of two runs and a
    ride. *)
Lemma get_activities_empty_string_filters_witness :
  (get_activities (Some (ActivityFilter.mk None None 1 30 (Some "") None None))
     false mixed_page_world).1
  = Ok [ride; example_run 3 20 None; example_run 1 10 None].
Proof.
  rewrite (get_activities_empty_string_filters None None 1 30 (Some "") None None
             false mixed_page_world (or_intror eq_refl) (or_introl eq_refl)).
  vm_compute. reflexivity.
Defined.

Lemma apply_filters_sublist mk f activities l :
  apply_filters mk f activities = Ok l -> l `sublist_of` activities.
Proof.
  unfold apply_filters. intros Hf.
  match type of Hf with
  | match _ with Some after => after_recheck _ _ ?l3 | None => _ end = _ =>
      assert (l `sublist_of` l3) as Hsub
        by (destruct (ActivityFilter.after f);
            [by eapply after_recheck_sublist|by inversion Hf])
  end.
  etrans; [exact Hsub|].
  repeat match goal with
         | |- (match ?x with _ => _ end) `sublist_of` _ => destruct x
         | |- (if ?x then _ else _) `sublist_of` _ => destruct x
         | |- filter _ _ `sublist_of` _ =>
             etrans; [apply sublist_filter|]
         end; done.
Qed.

Lemma map_outcome_parse_items data activities :
  map_outcome parse_item data = Ok activities -> data = Some <$> activities.
Proof.
  revert activities. induction data as [|[a|] data IH]; simpl; intros activities.
  - by intros [= <-].
  - destruct (map_outcome parse_item data) as [l| |]; [|done..].
    intros [= <-]. rewrite fmap_cons. f_equal. by apply IH.
  - done.
Qed.

Lemma get_activities_ok_fetched activity_filter all_pages w l w' :
  get_activities activity_filter all_pages w = (Ok l, w') ->
  exists data w1 activities,
    fetch_activities_data (build_params (mktime w) activity_filter) all_pages w
      = (Ok data, w1)
    /\ data = Some <$> activities
    /\ l ⊆+ apply_gear_name (_gear_cache w') <$> activities
    /\ (activity_filter = None ->
        l ≡ₚ apply_gear_name (_gear_cache w') <$> activities).
Proof.
  intros H. apply get_activities_ok_enriched in H
    as (data & w1 & activities & Hfetch & Hparse & H).
  exists data, w1, activities. split; [done|]. split.
  { by apply map_outcome_parse_items. }
  apply filter_and_sort_inv in H as (l0 & Hf & ->). split.
  - rewrite sort_desc_Permutation. apply sublist_submseteq.
    destruct activity_filter as [f|]; [|by inversion Hf].
    by eapply apply_filters_sublist.
  - intros ->. inversion Hf; subst. apply sort_desc_Permutation.
Qed.

(** X3.  [get_activities] returns fetched activities only, each at most
    as often as it was fetched, with the names of the gear cache applied;
    without a filter it returns every one of them. *)
Theorem get_activities_returns_fetched activity_filter all_pages w l w' :
  get_activities activity_filter all_pages w = (Ok l, w') ->
  exists data w1 activities,
    fetch_activities_data (build_params (mktime w) activity_filter) all_pages w
      = (Ok data, w1)
    /\ data = Some <$> activities
    /\ l ⊆+ apply_gear_name (_gear_cache w') <$> activities
    /\ (activity_filter = None ->
        l ≡ₚ apply_gear_name (_gear_cache w') <$> activities).
Proof. apply get_activities_ok_fetched. Qed.

(** X3, witness: the unfiltered page comes back whole. *)
Lemma get_activities_returns_fetched_witness :
  [example_run 2 30 (Some "g1"); example_run 3 20 None; example_run 1 10 None]
  ≡ₚ [example_run 1 10 None; example_run 2 30 (Some "g1"); example_run 3 20 None].
Proof.
  destruct (get_activities_returns_fetched None false unsorted_page_world
              [example_run 2 30 (Some "g1"); example_run 3 20 None;
               example_run 1 10 None]
              (get_activities None false unsorted_page_world).2)
    as (data & w1 & activities & Hfetch & -> & _ & Hperm).
  - vm_compute. reflexivity.
  - vm_compute in Hfetch. injection Hfetch as Hdata _.
    assert (activities = [example_run 1 10 None; example_run 2 30 (Some "g1");
                          example_run 3 20 None]) as ->.
    { destruct activities as [|a1 [|a2 [|a3 [|a4 rest]]]]; try discriminate.
      by injection Hdata as <- <- <-. }
    specialize (Hperm eq_refl). vm_compute in Hperm. exact Hperm.
Defined.

(** X4.  In the list [get_activities] returns, an activity whose gear id
    is in the gear cache carries the cached name as its gear name. *)
Theorem get_activities_gear_names_from_cache activity_filter all_pages w l w' :
  get_activities activity_filter all_pages w = (Ok l, w') ->
  forall a g n,
    a ∈ l ->
    Activity.gear_id a = Some g -> truthy_str g = true ->
    _gear_cache w' !! g = Some n ->
    Activity.gear_name a = Some n.
Proof.
  intros H a g n Ha Hg Ht Hn.
  apply get_activities_ok_fetched in H
    as (data & w1 & activities & _ & _ & Hsub & _).
  apply (elem_of_submseteq _ _ _ Ha) in Hsub.
  apply list_elem_of_fmap in Hsub as (a0 & -> & _).
  rewrite apply_gear_name_gear_id in Hg.
  unfold apply_gear_name. by rewrite Hg, Ht, Hn.
Qed.

(** X4, witness: the run with gear "g1" comes back named after the shoes
    the lookup returned. *)
Lemma get_activities_gear_names_from_cache_witness :
  Activity.gear_name (Activity.set_gear_name (example_run 1 10 (Some "g1"))
                        (Some "Shoes")) = Some "Shoes".
Proof.
  eapply (get_activities_gear_names_from_cache None false geared_page_world
            _ (get_activities None false geared_page_world).2).
  - vm_compute. reflexivity.
  - do 2 apply list_elem_of_further. apply list_elem_of_here.
  - reflexivity.
  - reflexivity.
  - vm_compute. reflexivity.
Defined.

Lemma get_activities_unfold activity_filter all_pages w :
  get_activities activity_filter all_pages w
  = match fetch_activities_data (build_params (mktime w) activity_filter)
            all_pages w with
    | (Ok data, w1) => enrich_filter_sort (mktime w) activity_filter data w1
    | (Raise e, w1) => (Raise e, w1)
    | (Diverge, w1) => (Diverge, w1)
    end.
Proof. done. Qed.

(** The page number the loop is about to set does not matter in the
    parameters handed to it. *)
Lemma page_loop_page_param fuel params v k acc w :
  page_loop fuel (dict_set "page" v params) k acc w
  = page_loop fuel params k acc w.
Proof. destruct fuel; [done|]. cbn [page_loop]. by rewrite dict_set_set. Qed.

Lemma build_params_all_pages mk before after page per_page page' per_page'
    activity_type has_gear gear_id k :
  dict_set "page" k
    (dict_set "per_page" (PInt 200)
       (build_params mk
          (Some (ActivityFilter.mk before after page per_page activity_type
                   has_gear gear_id))))
  = dict_set "page" k
      (dict_set "per_page" (PInt 200)
         (build_params mk
            (Some (ActivityFilter.mk before after page' per_page' activity_type
                     has_gear gear_id)))).
Proof. unfold build_params. simpl. by destruct before, after. Qed.

(** X5.  With [all_pages] set, the [page] and [per_page] of the filter
    play no part: every page is requested with [per_page] 200, from page
    1 on, and the call is the same whatever the two fields hold. *)
Theorem get_activities_all_pages_ignores_paging before after page per_page
    page' per_page' activity_type has_gear gear_id w :
  get_activities
    (Some (ActivityFilter.mk before after page per_page activity_type has_gear
             gear_id)) true w
  = get_activities
      (Some (ActivityFilter.mk before after page' per_page' activity_type
               has_gear gear_id)) true w.
Proof.
  set (f := ActivityFilter.mk before after page per_page activity_type
              has_gear gear_id).
  set (f' := ActivityFilter.mk before after page' per_page' activity_type
               has_gear gear_id).
  assert (fetch_activities_data (build_params (mktime w) (Some f)) true w
          = fetch_activities_data (build_params (mktime w) (Some f')) true w)
    as Hfetch.
  { unfold fetch_activities_data, bind, gets.
    rewrite <- (page_loop_page_param _
                  (dict_set "per_page" (PInt 200)
                     (build_params (mktime w) (Some f))) (PInt 0)).
    rewrite <- (page_loop_page_param _
                  (dict_set "per_page" (PInt 200)
                     (build_params (mktime w) (Some f'))) (PInt 0)).
    unfold f, f'.
    by rewrite (build_params_all_pages _ _ _ page per_page page' per_page'). }
  rewrite !get_activities_unfold, Hfetch.
  by destruct (fetch_activities_data _ true w) as [[data|e|] w1].
Qed.

Lemma missing_gear_ids_empty cache activities :
  (forall a g, a ∈ activities -> Activity.gear_id a = Some g ->
     truthy_str g = true -> is_Some (cache !! g)) ->
  missing_gear_ids cache activities = ∅.
Proof.
  unfold missing_gear_ids. generalize (∅ : gset string).
  induction activities as [|a activities IH]; intros acc Hall; simpl; [done|].
  assert (forall a' g, a' ∈ activities -> Activity.gear_id a' = Some g ->
            truthy_str g = true -> is_Some (cache !! g)) as Hrest
    by (intros a' g Ha'; apply Hall; by apply list_elem_of_further).
  destruct (Activity.gear_id a) as [g|] eqn:Hg; [|by apply IH].
  destruct (truthy_str g) eqn:Ht; [|by apply IH].
  destruct (Hall a g (list_elem_of_here _ _) Hg Ht) as [n Hn].
  rewrite bool_decide_eq_false_2 by (by rewrite Hn). by apply IH.
Qed.

(** X6.  When the gear id of every activity is already in the cache, the
    enrichment looks nothing up: no request is sent, the world is as it
    was, and the names come from the cache. *)
Theorem populate_gear_names_all_cached activities w :
  (forall a g, a ∈ activities -> Activity.gear_id a = Some g ->
     truthy_str g = true -> is_Some (_gear_cache w !! g)) ->
  _populate_gear_names_for_activities activities w
  = (Ok (apply_gear_name (_gear_cache w) <$> activities), w).
Proof.
  intros Hall. unfold _populate_gear_names_for_activities.
  unfold bind, gets. rewrite (missing_gear_ids_empty _ _ Hall).
  by rewrite bool_decide_eq_true_2.
Qed.

(** X6, witness: two activities with the cached gear, and no reply to
    give. *)
Lemma populate_gear_names_all_cached_witness :
  _populate_gear_names_for_activities
    [example_run 1 10 (Some "g1"); example_run 2 30 (Some "g1")]
    (cached_gear_world [])
  = (Ok [Activity.set_gear_name (example_run 1 10 (Some "g1")) (Some "Shoes");
         Activity.set_gear_name (example_run 2 30 (Some "g1")) (Some "Shoes")],
     cached_gear_world []).
Proof.
  rewrite populate_gear_names_all_cached; [reflexivity|].
  intros a g Ha Hg _.
  apply elem_of_cons in Ha as [->|Ha];
    [|apply elem_of_cons in Ha as [->|Ha];
      [|by apply not_elem_of_nil in Ha]];
    injection Hg as <-; by eexists.
Defined.

(** ** Activity Aggregator: what it leaves alone *)

#[local] Instance keeps_store_preorder : PreOrder keeps_store.
Proof.
  split.
  - intros w. by repeat split.
  - intros w1 w2 w3 (Hs1 & Hf1 & Hc1) (Hs2 & Hf2 & Hc2).
    repeat split; [congruence|congruence|set_solver].
Qed.

Lemma io_step_keeps_store P w w' : io_step P w w' -> keeps_store w w'.
Proof. intros [Hs Hf Hc _ _ _ _ _]. repeat split; try done. by rewrite Hc. Qed.

Lemma sound_weaken (R1 R2 : relation world) {A} (m : M A) :
  (forall w w', R1 w w' -> R2 w w') -> sound R1 m -> sound R2 m.
Proof. intros HR Hm w. destruct (Hm w) as [H1 H2]. split; [by apply HR|done]. Qed.

Lemma keeps_store_fetch_and_cache_gear gear_id :
  sound keeps_store (fetch_and_cache_gear gear_id).
Proof.
  unfold fetch_and_cache_gear. apply sound_bind; [typeclasses eauto| |].
  - eapply sound_weaken; [apply io_step_keeps_store|apply io_get_gear_by_id].
  - intros [g|]; [|apply sound_ret; typeclasses eauto].
    apply sound_modify. intros w. repeat split; simpl.
    rewrite dom_insert. set_solver.
Qed.

Lemma keeps_store_populate activities :
  sound keeps_store (_populate_gear_names_for_activities activities).
Proof.
  unfold _populate_gear_names_for_activities.
  apply sound_bind; [typeclasses eauto|apply sound_gets; typeclasses eauto|].
  intros cache.
  apply sound_bind; [typeclasses eauto|apply sound_gets; typeclasses eauto|].
  intros order. apply sound_bind; [typeclasses eauto| |].
  - case_bool_decide; [apply sound_ret; typeclasses eauto|].
    apply sound_for_each; [typeclasses eauto|].
    apply keeps_store_fetch_and_cache_gear.
  - intros _.
    apply sound_bind; [typeclasses eauto|apply sound_gets; typeclasses eauto|].
    intros c. apply sound_ret. typeclasses eauto.
Qed.

Lemma io_page_loop fuel : forall params k acc w,
  io_step (fun _ => True) w (page_loop fuel params k acc w).2.
Proof.
  induction fuel as [|fuel IH]; intros params k acc w; [reflexivity|].
  cbn [page_loop]. unfold bind at 1.
  destruct (_make_request "GET" "/athlete/activities"
              (dict_set "page" (PInt k) params) w) as [r w1] eqn:Hreq.
  apply (sound_run _ _ _ _ _
           (io_make_request (fun _ => True) _ _ _ (fun _ _ => I)
              (fun _ _ _ => I))) in Hreq.
  destruct r as [j|e|]; [|done..].
  destruct (json_items j) as [|x data]; [done|].
  destruct (_ <? _)%nat; [done|]. etrans; [exact Hreq|apply IH].
Qed.

Lemma io_fetch_activities_data params all_pages w :
  io_step (fun _ => True) w (fetch_activities_data params all_pages w).2.
Proof.
  unfold fetch_activities_data. destruct all_pages.
  - unfold bind at 1. unfold gets at 1. apply io_page_loop.
  - unfold bind at 1.
    destruct (_make_request "GET" "/athlete/activities" params w)
      as [r w1] eqn:Hreq.
    apply (sound_run _ _ _ _ _
             (io_make_request (fun _ => True) _ _ _ (fun _ _ => I)
                (fun _ _ _ => I))) in Hreq.
    by destruct r.
Qed.

(** X7.  However [get_activities] ends, the track files and the
    settings other than the three tokens (which a refresh on the way may
    replace) are as before, and every gear id that was in the cache is
    still in it; the name stored under it may have been replaced. *)
Theorem get_activities_keeps_store activity_filter all_pages w :
  keeps_store w (get_activities activity_filter all_pages w).2.
Proof.
  rewrite get_activities_unfold.
  pose proof (io_fetch_activities_data
                (build_params (mktime w) activity_filter) all_pages w) as Hfetch.
  apply io_step_keeps_store in Hfetch.
  destruct (fetch_activities_data _ all_pages w) as [[data|e|] w1];
    simpl in *; [|done..].
  etrans; [exact Hfetch|].
  unfold enrich_filter_sort. unfold bind at 1. unfold lift at 1.
  destruct (map_outcome parse_item data) as [activities| |]; [|reflexivity..].
  unfold bind at 1.
  destruct activities as [|a activities].
  - reflexivity.
  - pose proof (keeps_store_populate (a :: activities) w1) as [Hp _].
    destruct (_populate_gear_names_for_activities (a :: activities) w1)
      as [[acts| |] w2]; done.
Qed.

Lemma sublist_fmap_fixed {A} (f : A -> A) (P : A -> Prop) k : forall l,
  l `sublist_of` f <$> k ->
  Forall P l ->
  (forall a, P (f a) -> f a = a) ->
  l `sublist_of` k.
Proof.
  induction k as [|a k IH]; intros l Hsub HP Hfix.
  - rewrite fmap_nil in Hsub. by inversion Hsub.
  - rewrite fmap_cons in Hsub. inversion Hsub as [|x l1 l2 Hsub'|x l1 l2 Hsub']; subst.
    + apply Forall_cons in HP as [Hx HP]. rewrite (Hfix a Hx).
      apply sublist_skip. by apply IH.
    + apply sublist_cons. by apply IH.
Qed.

(** X8.  [get_activities_without_gear] returns only activities that have
    no gear id, each exactly as it was fetched: no gear name is written
    onto them. *)
Theorem get_activities_without_gear_gearless after w l w' :
  get_activities_without_gear after w = (Ok l, w') ->
  Forall (fun a => Activity.gear_id a = None) l
  /\ exists data w1 activities,
       fetch_activities_data
         (build_params (mktime w)
            (Some (ActivityFilter.mk None after 1 30 None (Some false) None)))
         true w = (Ok data, w1)
       /\ data = Some <$> activities
       /\ l ⊆+ activities.
Proof.
  unfold get_activities_without_gear. intros H.
  apply get_activities_ok_enriched in H
    as (data & w1 & activities & Hfetch & Hparse & H).
  apply filter_and_sort_inv in H as (l0 & Hf & ->).
  assert (Forall (fun a => Activity.gear_id a = None) l0) as Hnone.
  { apply Forall_forall. intros a Ha.
    by destruct (apply_filters_ok _ _ _ _ a Hf Ha) as (_ & _ & _ & H3 & _);
      apply H3. }
  split; [by apply sort_desc_Forall|].
  exists data, w1, activities. split; [done|].
  split; [by apply map_outcome_parse_items|].
  rewrite sort_desc_Permutation. apply sublist_submseteq.
  apply apply_filters_sublist in Hf.
  eapply (sublist_fmap_fixed (apply_gear_name (_gear_cache w'))); [done..|].
  intros a Ha. simpl in Ha. rewrite apply_gear_name_gear_id in Ha.
  unfold apply_gear_name. by rewrite Ha.
Qed.

(** X8, witness: of a run with gear, a run without and a ride without,
    the two without gear come back. *)
Lemma get_activities_without_gear_gearless_witness :
  (get_activities_without_gear None geared_page_world).1
    = Ok [ride; example_run 2 30 None]
  /\ Forall (fun a => Activity.gear_id a = None) [ride; example_run 2 30 None].
Proof.
  split; [vm_compute; reflexivity|].
  eapply (proj1 (get_activities_without_gear_gearless None geared_page_world
                   _ (get_activities_without_gear None geared_page_world).2 _)).
  Unshelve. vm_compute. reflexivity.
Defined.

(** ** Remote Client: errors, and the refresh before a request *)

(** X9.  A first answer that is an HTTP error other than 401, or a
    connection failure, is not retried: exactly the one request was sent,
    and the call raises StravaAPIError with the status and text of the
    answer, or with the text of the connection error. *)
Theorem make_request_error_not_retried method endpoint params w h w0 :
  _get_headers w = (Ok h, w0) ->
  let url := strava_api_base_url (settings w) +:+ "/" +:+ lstrip_slash endpoint in
  let w1 := with_remote (tail (script w0))
              (log w0 ++ [mk_request method url (Some h) params]) w0 in
  (forall c t b s,
     script w0 = Response c t b :: s ->
     (200 <=? c) && (c <=? 299) = false ->
     c <> 401 ->
     _make_request method endpoint params w
     = (Raise (StravaAPIError
                 ("API request failed: " +:+ pretty c +:+ " - " +:+ t)), w1))
  /\ (forall m s,
        script w0 = ConnectError m :: s ->
        _make_request method endpoint params w
        = (Raise (StravaAPIError ("Request error: " +:+ m)), w1)).
Proof.
  intros Hh url w1. split.
  - intros c t b s Hs Hc H401. unfold _make_request.
    unfold bind at 1. unfold gets at 1.
    rewrite (bind_run_ok _ _ _ _ _ Hh). unfold try_except.
    unfold bind at 1, client_request at 1. rewrite Hs.
    unfold bind at 1, raise_for_status at 1. rewrite Hc.
    unfold raise at 1.
    destruct (Z.eqb_spec c 401) as [|_]; [done|].
    unfold w1. by rewrite Hs.
  - intros m s Hs. unfold _make_request.
    unfold bind at 1. unfold gets at 1.
    rewrite (bind_run_ok _ _ _ _ _ Hh). unfold try_except.
    unfold bind at 1, client_request at 1. rewrite Hs.
    unfold w1. by rewrite Hs.
Qed.

(** X9, witness: a 500 to the first request. *)
Lemma make_request_error_not_retried_witness :
  exists w1,
    _make_request "GET" "/athlete/activities" [] first_request_fails_world
    = (Raise (StravaAPIError "API request failed: 500 - Internal Server Error"), w1)
    /\ length (log w1) = 1%nat.
Proof.
  eexists. split.
  - apply (proj1 (make_request_error_not_retried "GET" "/athlete/activities" []
                    first_request_fails_world "token" first_request_fails_world
                    eq_refl) 500 "Internal Server Error" None [] eq_refl eq_refl).
    discriminate.
  - reflexivity.
Defined.

(** X10.  Without an access token and without a refresh token nothing is
    sent: the call raises StravaAPIError asking to authenticate, and the
    world is as it was. *)
Theorem make_request_unauthenticated method endpoint params w :
  truthy_str (access_token w) = false ->
  truthy_str (refresh_token w) = false ->
  _make_request method endpoint params w
  = (Raise (StravaAPIError
              "Access token not available. Please authenticate first."), w).
Proof.
  intros Ha Hr. unfold _make_request, _get_headers, _ensure_valid_token,
    _refresh_access_token, bind, gets, time_time. simpl.
  rewrite Ha. simpl. rewrite Hr. simpl. by rewrite Ha.
Qed.

(** X10, witness: a service that was never authenticated. *)
Lemma make_request_unauthenticated_witness :
  _make_request "GET" "/athlete/activities" []
    (unauthenticated_world [page_reply []])
  = (Raise (StravaAPIError
              "Access token not available. Please authenticate first."),
     unauthenticated_world [page_reply []]).
Proof. by apply make_request_unauthenticated. Defined.

Lemma refresh_access_token_exchange w :
  truthy_str (refresh_token w) = true ->
  _refresh_access_token w
  = try_except
      (response <- client_request (refresh_request w) ;;
       raise_for_status response ;;;
       token_data <- response_json response ;;
       a <- token_field token_data "access_token" (fun a _ _ => a) ;;
       modify (fun w => with_tokens a (refresh_token w) (expires_at w) w) ;;;
       r <- token_field token_data "refresh_token" (fun _ r _ => r) ;;
       modify (fun w => with_tokens (access_token w) r (expires_at w) w) ;;;
       e <- token_field token_data "expires_at" (fun _ _ e => e) ;;
       modify (fun w => with_tokens (access_token w) (refresh_token w) e w) ;;;
       modify (fun w => with_settings
                          (set_strava_access_token (access_token w) (settings w)) w) ;;;
       modify (fun w => with_settings
                          (set_strava_refresh_token (refresh_token w) (settings w)) w) ;;;
       modify (fun w => with_settings
                          (set_strava_token_expires_at (expires_at w) (settings w)) w) ;;;
       _save_tokens ;;;
       ret true)
      (fun e =>
         match e with
         | HTTPStatusError _ _ | RequestError _ | KeyError _ => ret false
         | _ => raise e
         end) w.
Proof.
  intros Hr. unfold _refresh_access_token. unfold bind at 1. unfold gets at 1.
  rewrite Hr. simpl. unfold bind at 1. unfold gets at 1. done.
Qed.

(** A path has a directory name exactly when it has a slash. *)
Lemma has_slash_in_directory path : has_slash path = true <-> in_directory path.
Proof.
  unfold in_directory. induction path as [|c path IH]; simpl.
  - split; [done|]. by intros ?%elem_of_nil.
  - rewrite orb_true_iff, IH, elem_of_cons.
    destruct (Ascii.eqb_spec c "/") as [->|Hne].
    + split; intros _; by left.
    + split; intros [H|H]; [discriminate|by right|congruence|by right].
Qed.

Lemma rstrip_slash_empty s : rstrip_slash s = EmptyString -> all_slashes s = true.
Proof.
  destruct s as [|c s]; [done|]. cbn [rstrip_slash].
  by destruct (all_slashes (String c s)).
Qed.

Lemma dirname_in_directory path :
  truthy_str (dirname path) = true <-> in_directory path.
Proof.
  rewrite <- has_slash_in_directory. unfold dirname.
  assert (truthy_str (upto_last_slash path) = has_slash path) as Hhead.
  { destruct path as [|c path]; [done|]. cbn [upto_last_slash].
    by destruct (has_slash (String c path)). }
  rewrite <- Hhead.
  destruct (truthy_str (upto_last_slash path)) eqn:Ht; simpl; [|by rewrite Ht].
  destruct (all_slashes (upto_last_slash path)) eqn:Hall; simpl; [by rewrite Ht|].
  split; [done|]. intros _.
  destruct (rstrip_slash (upto_last_slash path)) eqn:Hr; [|done].
  apply rstrip_slash_empty in Hr. congruence.
Qed.

(** A refresh answered with the three tokens, by what the disk does. *)
Lemma refresh_success_run w c t a r e s :
  truthy_str (refresh_token w) = true ->
  script w = Response c t (Some (JTokens (Some a) (Some r) (Some e))) :: s ->
  (200 <=? c) && (c <=? 299) = true ->
  _refresh_access_token w
  = if negb (truthy_str (dirname (strava_token_file (settings w))))
    then (Raise FileNotFoundError, refreshed a r e s w)
    else match disk w (S (length (log w))) with
         | MakedirsError msg => (Raise (OSError msg), refreshed a r e s w)
         | OpenError => (Ok true, refreshed a r e s w)
         | DumpError =>
             (Ok true, with_token_file (Some Unreadable) (refreshed a r e s w))
         | Written =>
             (Ok true,
              with_token_file (Some (TokenData (Some a) (Some r) (Some e)))
                (refreshed a r e s w))
         end.
Proof.
  intros Hr Hs Hc. rewrite refresh_access_token_exchange by done.
  unfold try_except, bind, client_request, raise_for_status. rewrite Hs.
  simpl. rewrite Hc. simpl. unfold _save_tokens, bind, gets. simpl.
  rewrite length_app, Nat.add_1_r. simpl.
  destruct (negb (truthy_str (dirname (strava_token_file (settings w)))));
    [done|].
  by destruct (disk w (S (length (log w)))).
Qed.

Lemma refresh_failure_run w r s :
  truthy_str (refresh_token w) = true ->
  script w = r :: s ->
  match r with
  | Response c _ _ => (200 <=? c) && (c <=? 299) = false
  | ConnectError _ => True
  end ->
  _refresh_access_token w
  = (Ok false, with_remote s (log w ++ [refresh_request w]) w).
Proof.
  intros Hr Hs Hbad. rewrite refresh_access_token_exchange by done.
  unfold try_except, bind, client_request, raise_for_status. rewrite Hs.
  destruct r as [c t b|m]; simpl; [by rewrite Hbad|done].
Qed.

(** X11.  A refresh answered by a 2xx response with the three token
    fields stores them in the service and in the settings, and then
    saves.  With a token file given without a directory the save raises
    FileNotFoundError, and so does the refresh; when the directory
    cannot be made, the refresh raises that error.  Otherwise the refresh
    returns [True], whether or not the file could be written: the file
    holds the three new values when the write went through, stays as it
    was when it could not be opened, and is unreadable when the dump
    failed. *)
Theorem refresh_access_token_success w c t a r e s :
  truthy_str (refresh_token w) = true ->
  script w = Response c t (Some (JTokens (Some a) (Some r) (Some e))) :: s ->
  (200 <=? c) && (c <=? 299) = true ->
  let w1 := refreshed a r e s w in
  (~ in_directory (strava_token_file (settings w)) ->
   _refresh_access_token w = (Raise FileNotFoundError, w1))
  /\ (in_directory (strava_token_file (settings w)) ->
      _refresh_access_token w
      = match disk w (S (length (log w))) with
        | MakedirsError msg => (Raise (OSError msg), w1)
        | OpenError => (Ok true, w1)
        | DumpError => (Ok true, with_token_file (Some Unreadable) w1)
        | Written =>
            (Ok true,
             with_token_file (Some (TokenData (Some a) (Some r) (Some e))) w1)
        end).
Proof.
  intros Hr Hs Hc w1. rewrite (refresh_success_run w c t a r e s Hr Hs Hc).
  fold w1. split; intros Hdir.
  - rewrite <- dirname_in_directory in Hdir.
    by destruct (truthy_str (dirname (strava_token_file (settings w)))).
  - apply dirname_in_directory in Hdir. by rewrite Hdir.
Qed.

(** X11, witness: the refresh of [example_world]'s token, on a disk that
    takes the write, and on a full disk. *)
Lemma refresh_access_token_success_witness :
  (exists w',
     _refresh_access_token (example_world [good_tokens]) = (Ok true, w')
     /\ access_token w' = "token2" /\ refresh_token w' = "refresh2"
     /\ expires_at w' = 99999
     /\ strava_access_token (settings w') = "token2"
     /\ token_file w'
        = Some (TokenData (Some "token2") (Some "refresh2") (Some 99999)))
  /\ (exists w',
        _refresh_access_token (full_disk_world [good_tokens]) = (Ok true, w')
        /\ access_token w' = "token2"
        /\ token_file w' = Some Unreadable)
  /\ (_refresh_access_token (bare_token_file_world [good_tokens])).1
     = Raise FileNotFoundError.
Proof.
  split; [|split].
  - eexists. split.
    + apply (refresh_access_token_success (example_world [good_tokens])
               200 "" "token2" "refresh2" 99999 []); try reflexivity.
      apply has_slash_in_directory. reflexivity.
    + by repeat split.
  - eexists. split.
    + apply (refresh_access_token_success (full_disk_world [good_tokens])
               200 "" "token2" "refresh2" 99999 []); try reflexivity.
      apply has_slash_in_directory. reflexivity.
    + by repeat split.
  - rewrite (proj1 (refresh_access_token_success
                      (bare_token_file_world [good_tokens])
                      200 "" "token2" "refresh2" 99999 [] eq_refl eq_refl eq_refl)).
    + reflexivity.
    + rewrite <- has_slash_in_directory. discriminate.
Defined.

(** X12.  A refresh answered by an HTTP error or cut short by a
    connection failure returns [False] and changes neither the tokens nor
    the token file; without a refresh token it returns [False] and sends
    nothing. *)
Theorem refresh_access_token_failure w :
  (truthy_str (refresh_token w) = false ->
   _refresh_access_token w = (Ok false, w))
  /\ (forall r s,
        truthy_str (refresh_token w) = true ->
        script w = r :: s ->
        match r with
        | Response c _ _ => (200 <=? c) && (c <=? 299) = false
        | ConnectError _ => True
        end ->
        _refresh_access_token w
        = (Ok false, with_remote s (log w ++ [refresh_request w]) w)).
Proof.
  split.
  - intros Hr. unfold _refresh_access_token. unfold bind at 1. unfold gets at 1.
    by rewrite Hr.
  - intros r s. apply refresh_failure_run.
Qed.

(** X13.  A 2xx token reply that has an access token but no refresh
    token: the call returns [False], yet the access token in memory is
    already the new one, while the refresh token, the expiry and the token
    file are the old ones. *)
Theorem refresh_access_token_partial_reply w c t a e s :
  truthy_str (refresh_token w) = true ->
  script w = Response c t (Some (JTokens (Some a) None e)) :: s ->
  (200 <=? c) && (c <=? 299) = true ->
  _refresh_access_token w
  = (Ok false,
     with_tokens a (refresh_token w) (expires_at w)
       (with_remote s (log w ++ [refresh_request w]) w)).
Proof.
  intros Hr Hs Hc. rewrite refresh_access_token_exchange by done.
  unfold try_except, bind, client_request, raise_for_status. rewrite Hs.
  simpl. by rewrite Hc.
Qed.

(** X12, witness: the token endpoint answers 500. *)
Lemma refresh_access_token_failure_witness :
  exists w',
    _refresh_access_token (example_world [Response 500 "down" None])
      = (Ok false, w')
    /\ access_token w' = "token" /\ refresh_token w' = "refresh"
    /\ expires_at w' = 100000 /\ token_file w' = None.
Proof.
  eexists. split.
  - by apply (proj2 (refresh_access_token_failure
                       (example_world [Response 500 "down" None]))
                (Response 500 "down" None) []).
  - by repeat split.
Defined.

(** X13, witness: the reply lacks the refresh token. *)
Lemma refresh_access_token_partial_reply_witness :
  exists w',
    _refresh_access_token (example_world [tokens_without_refresh])
      = (Ok false, w')
    /\ access_token w' = "token2" /\ refresh_token w' = "refresh"
    /\ expires_at w' = 100000 /\ token_file w' = None.
Proof.
  eexists. split.
  - by apply (refresh_access_token_partial_reply
                (example_world [tokens_without_refresh]) 200 "" "token2"
                (Some 99999) []).
  - by repeat split.
Defined.










(** ** Tokens across a restart *)

(** A refresh that returns [True] was answered by a 2xx response with
    the three token fields. *)
Lemma refresh_ok_inv w w' :
  _refresh_access_token w = (Ok true, w') ->
  truthy_str (refresh_token w) = true
  /\ exists c t a r e s,
       script w = Response c t (Some (JTokens (Some a) (Some r) (Some e))) :: s
       /\ (200 <=? c) && (c <=? 299) = true.
Proof.
  intros H.
  destruct (truthy_str (refresh_token w)) eqn:Hr.
  2: { unfold _refresh_access_token in H. unfold bind at 1 in H.
       unfold gets at 1 in H. rewrite Hr in H. discriminate. }
  split; [done|].
  rewrite refresh_access_token_exchange in H by done.
  apply try_except_ok_inv in H as [H|(e & w1 & _ & H)].
  2: { by destruct e. }
  apply bind_ok_inv in H as ([[c t] b] & w1 & Hreq & H).
  apply client_request_inv in Hreq as [-> [s Hs]].
  apply bind_ok_inv in H as ([] & w2 & Hstatus & H).
  unfold raise_for_status in Hstatus.
  destruct ((200 <=? c) && (c <=? 299)) eqn:Hc; [|discriminate].
  apply bind_ok_inv in H as (token_data & w3 & Hjson & H).
  destruct b as [j|]; [|discriminate]. injection Hjson as <- _.
  apply bind_ok_inv in H as (a & w4 & Ha & H).
  apply bind_ok_inv in H as ([] & w5 & _ & H).
  apply bind_ok_inv in H as (r & w6 & Hrt & H).
  apply bind_ok_inv in H as ([] & w7 & _ & H).
  apply bind_ok_inv in H as (e & w8 & He & _).
  destruct j as [| | | |oa or oe]; try discriminate.
  destruct oa as [a'|]; [|discriminate].
  destruct or as [r'|]; [|discriminate].
  destruct oe as [e'|]; [|discriminate].
  by exists c, t, a', r', e', s.
Qed.

(** X16.  After a refresh that returned [True]: when the write of the
    token file went through, the tokens the service holds are the ones a
    service started afterwards loads from the file, whatever tokens it
    starts with; when the dump failed, the file is unreadable and a
    service started afterwards keeps the tokens it starts with; when the
    file could not be opened, it is as it was before the refresh.
    Without a token file the starting tokens stay. *)
Theorem load_tokens_after_refresh w w' :
  _refresh_access_token w = (Ok true, w') ->
  (disk w (S (length (log w))) = Written ->
   forall a0 r0 e0,
     exists w'',
       _load_tokens (with_tokens a0 r0 e0 w') = (Ok tt, w'')
       /\ access_token w'' = access_token w'
       /\ refresh_token w'' = refresh_token w'
       /\ expires_at w'' = expires_at w')
  /\ (disk w (S (length (log w))) = DumpError ->
      forall a0 r0 e0,
        _load_tokens (with_tokens a0 r0 e0 w')
        = (Ok tt, with_tokens a0 r0 e0 w'))
  /\ (disk w (S (length (log w))) = OpenError -> token_file w' = token_file w)
  /\ (forall w0, token_file w0 = None -> _load_tokens w0 = (Ok tt, w0)).
Proof.
  intros H. pose proof H as H0.
  apply refresh_ok_inv in H0 as (Hr & c & t & a & r & e & s & Hs & Hc).
  rewrite (refresh_success_run w c t a r e s Hr Hs Hc) in H.
  destruct (negb _); [discriminate|].
  split; [|split; [|split]].
  - intros Hdisk a0 r0 e0. rewrite Hdisk in H. injection H as <-.
    eexists. split; [reflexivity|]. done.
  - intros Hdisk a0 r0 e0. rewrite Hdisk in H. by injection H as <-.
  - intros Hdisk. rewrite Hdisk in H. by injection H as <-.
  - intros w0 H0. unfold _load_tokens, modify. by rewrite H0.
Qed.

(** X16, witness: refreshed tokens against empty starting tokens, after
    a write that went through and after a dump that failed. *)
Lemma load_tokens_after_refresh_witness :
  (exists w' w'',
     _refresh_access_token (example_world [good_tokens]) = (Ok true, w')
     /\ _load_tokens (with_tokens "" "" 0 w') = (Ok tt, w'')
     /\ access_token w'' = "token2" /\ expires_at w'' = 99999)
  /\ exists w' w'',
       _refresh_access_token (full_disk_world [good_tokens]) = (Ok true, w')
       /\ _load_tokens (with_tokens "" "" 0 w') = (Ok tt, w'')
       /\ access_token w'' = "" /\ expires_at w'' = 0.
Proof.
  split.
  - assert (_refresh_access_token (example_world [good_tokens])
            = (Ok true, (_refresh_access_token (example_world [good_tokens])).2))
      as Hr by (vm_compute; reflexivity).
    destruct (proj1 (load_tokens_after_refresh _ _ Hr) eq_refl "" "" 0)
      as (w'' & Hload & Ha & _ & He).
    eexists _, w''. split; [exact Hr|]. split; [exact Hload|]. by split.
  - assert (_refresh_access_token (full_disk_world [good_tokens])
            = (Ok true, (_refresh_access_token (full_disk_world [good_tokens])).2))
      as Hr by (vm_compute; reflexivity).
    pose proof (proj1 (proj2 (load_tokens_after_refresh _ _ Hr)) eq_refl "" "" 0)
      as Hload.
    eexists _, _. split; [exact Hr|]. split; [exact Hload|]. by split.
Defined.

(** ** Track Synthesizer: names, paths and files *)

Lemma replace_char_chars c d s :
  list_ascii_of_string (replace_char c d s)
  = (fun x => if Ascii.eqb x c then d else x) <$> list_ascii_of_string s.
Proof. induction s as [|x s IH]; simpl; [done|]. by rewrite IH. Qed.

Lemma safe_name_chars n :
  list_ascii_of_string (safe_name n) = safe_char <$> list_ascii_of_string n.
Proof.
  unfold safe_name. rewrite !replace_char_chars, <- !list_fmap_compose.
  apply list_fmap_ext. intros _ c _. unfold safe_char. simpl.
  destruct (Ascii.eqb_spec c " ") as [->|?]; [done|].
  destruct (Ascii.eqb_spec c "/") as [->|?]; [done|].
  by destruct (Ascii.eqb_spec c "\").
Qed.

Lemma safe_char_clean c :
  safe_char c <> " "%char /\ safe_char c <> "/"%char /\ safe_char c <> "\"%char.
Proof.
  unfold safe_char.
  destruct (Ascii.eqb_spec c " ") as [->|?]; [done|].
  destruct (Ascii.eqb_spec c "/") as [->|?]; [done|].
  by destruct (Ascii.eqb_spec c "\").
Qed.

Lemma safe_char_idemp c : safe_char (safe_char c) = safe_char c.
Proof.
  destruct (safe_char_clean c) as (H1 & H2 & H3). unfold safe_char at 1.
  destruct (Ascii.eqb_spec (safe_char c) " "); [done|].
  destruct (Ascii.eqb_spec (safe_char c) "/"); [done|].
  by destruct (Ascii.eqb_spec (safe_char c) "\").
Qed.

Lemma string_of_chars_inj s1 s2 :
  list_ascii_of_string s1 = list_ascii_of_string s2 -> s1 = s2.
Proof.
  intros H. rewrite <- (string_of_list_ascii_of_string s1),
    <- (string_of_list_ascii_of_string s2). by rewrite H.
Qed.

Lemma string_length_chars s :
  String.length s = length (list_ascii_of_string s).
Proof. induction s as [|c s IH]; simpl; [done|]. by rewrite IH. Qed.

(** X17.  The sanitised name is the name with every space, slash and
    backslash replaced by an underscore and every other character kept:
    it has the same length, holds none of the three characters, and
    sanitising it again changes nothing. *)
Theorem safe_name_replaces n :
  list_ascii_of_string (safe_name n) = safe_char <$> list_ascii_of_string n
  /\ String.length (safe_name n) = String.length n
  /\ Forall (fun c => c <> " "%char /\ c <> "/"%char /\ c <> "\"%char)
       (list_ascii_of_string (safe_name n))
  /\ safe_name (safe_name n) = safe_name n.
Proof.
  split; [apply safe_name_chars|]. split; [|split].
  - rewrite !string_length_chars, safe_name_chars. apply length_fmap.
  - rewrite safe_name_chars. apply Forall_fmap, Forall_forall.
    intros c _. apply safe_char_clean.
  - apply string_of_chars_inj. rewrite !safe_name_chars, <- list_fmap_compose.
    apply list_fmap_ext. intros _ c _. apply safe_char_idemp.
Qed.

Lemma safe_name_head n :
  match safe_name n with
  | String "/"%char _ => False
  | _ => True
  end.
Proof.
  pose proof (safe_name_chars n) as H.
  destruct (safe_name n) as [|c s]; [done|].
  destruct n as [|x n]; [done|]. simpl in H. injection H as Hc _.
  destruct (safe_char_clean x) as (_ & H2 & _). rewrite <- Hc in H2.
  destruct c as [[] [] [] [] [] [] [] []]; done.
Qed.

Lemma string_append_assoc (a b c : string) :
  a +:+ b +:+ c = (a +:+ b) +:+ c.
Proof.
  induction a as [|x a IH]; [done|].
  change (String x (a +:+ b +:+ c) = String x ((a +:+ b) +:+ c)). by f_equal.
Qed.

(** X18.  The path of the track file is the directory, a slash where the
    directory does not end in one, the sanitised name and ".gpx": the
    name, having lost its slashes, can neither add directories to the
    path nor make [os.path.join] drop the directory. *)
Theorem gpx_file_path_in_directory save_path activity_name :
  gpx_file_path save_path activity_name
  = directory_prefix save_path +:+ safe_name activity_name +:+ ".gpx".
Proof.
  unfold gpx_file_path, path_join, directory_prefix.
  pose proof (safe_name_head activity_name) as Hhead.
  destruct (safe_name activity_name) as [|c s] eqn:Hn; simpl.
  - destruct save_path; [done|].
    destruct (ends_with_slash _); [done|apply string_append_assoc].
  - destruct c as [[] [] [] [] [] [] [] []]; try done;
      (destruct save_path; [done|];
       destruct (ends_with_slash _); [done|apply string_append_assoc]).
Qed.

Lemma gpx_file_path_safe_name save_path n1 n2 :
  safe_name n1 = safe_name n2 ->
  gpx_file_path save_path n1 = gpx_file_path save_path n2.
Proof. unfold gpx_file_path. by intros ->. Qed.

(** X19.  Two display names that differ only in spaces, slashes and
    backslashes share one track file: after a download under the first
    name has returned a path, a download of any activity under the second
    name, into the same directory, returns that path as soon as its
    metadata fetch succeeds, and leaves the track files as they were,
    so the file still holds the first activity's track. *)
Theorem download_gpx_name_collision id1 id2 save_path n1 n2 w p w1 w2 a w3 :
  truthy_str n1 = true ->
  truthy_str n2 = true ->
  safe_name n1 = safe_name n2 ->
  download_gpx id1 save_path (Some n1) w = (Ok p, w1) ->
  files w2 = files w1 ->
  settings w2 = settings w1 ->
  get_activity_by_id id2 w2 = (Ok a, w3) ->
  download_gpx id2 save_path (Some n2) w2 = (Ok p, w3)
  /\ files w3 = files w1.
Proof.
  intros Hn1 Hn2 Hsafe H1 Hfiles Hsettings Ha.
  apply download_gpx_ok_inv in H1 as (a1 & wa & _ & Hp & Hfile & Hs1).
  rewrite (or_default_some n1) in Hp by done.
  rewrite (gpx_file_path_safe_name _ _ _ Hsafe) in Hp.
  rewrite (download_gpx_hit id2 save_path (Some n2) w2 _ _ Ha);
    rewrite (or_default_some n2) by done.
  - split; [by rewrite Hp, Hsettings, Hs1|].
    apply (sound_run _ _ _ _ _ (io_get_activity_by_id_traffic _)) in Ha.
    destruct Ha as [_ Hf _ _ _ _ _ _]. congruence.
  - by rewrite Hfiles, Hsettings, Hs1, <- Hp.
Qed.

Lemma download_gpx_name_collision_witness :
  exists w1 w3,
    download_gpx 7 None (Some "My run/1") uneven_streams_world
      = (Ok "./data/gpx/My_run_1.gpx", w1)
    /\ download_gpx 8 None (Some "My run 1") (colliding_call_world w1)
       = (Ok "./data/gpx/My_run_1.gpx", w3)
    /\ files w3 = files w1.
Proof.
  eexists. eexists.
  split; [vm_compute; reflexivity|].
  eapply (download_gpx_name_collision 7 8 None "My run/1" "My run 1"
            uneven_streams_world); vm_compute; reflexivity.
Defined.

(** X20.  Whatever its outcome, [download_gpx] leaves the gear cache and
    the settings other than the three tokens (which a refresh on the way
    may replace) alone, and either leaves the track files as they were,
    or returns a path at which there was no file and adds one file
    there: it never replaces or removes a file. *)
Theorem download_gpx_adds_one_file activity_id save_path activity_name w r w' :
  download_gpx activity_id save_path activity_name w = (r, w') ->
  config (settings w') = config (settings w)
  /\ _gear_cache w' = _gear_cache w
  /\ (files w' = files w
      \/ exists p gpx,
           r = Ok p /\ files w !! p = None /\ files w' = <[p := gpx]> (files w)).
Proof.
  intros H. unfold download_gpx in H.
  apply bind_inv in H as [(d & w0 & H0 & H)|[(e & H0 & _)|[H0 _]]];
    [|by apply gets_inv in H0 as [? _]..].
  apply gets_inv in H0 as [[= ->] ->].
  apply bind_inv in H as [(a & wa & Ha & H)|[(e & Ha & _)|[Ha _]]];
    [|apply (sound_run _ _ _ _ _ (io_get_activity_by_id_traffic _)) in Ha;
      destruct Ha; by auto..].
  apply (sound_run _ _ _ _ _ (io_get_activity_by_id_traffic _)) in Ha.
  destruct Ha as [Hs Hf Hc _ _ _ _ _].
  apply bind_inv in H as [(cached & wc & Hcached & H)|[(e & H0 & _)|[H0 _]]];
    [|by apply gets_inv in H0 as [? _]..].
  apply gets_inv in Hcached as [[= ->] ->].
  case_bool_decide as Hhit.
  { inversion H; subst. by auto. }
  apply bind_inv in H as [(j & ws & Hj & H)|[(e & Hj & _)|[Hj _]]].
  - apply (sound_run _ _ _ _ _
             (io_get_activity_streams (fun _ => True) _ (fun _ _ => I)
                (fun _ _ _ => I))) in Hj.
    destruct Hj as [Hs' Hf' Hc' _ _ _ _ _].
    destruct (Streams.latlng (json_streams j)) as [latlngs|].
    + unfold bind, modify, ret in H. inversion H; subst; clear H. simpl.
      split; [congruence|]. split; [congruence|]. right.
      eexists _, _. split; [done|]. rewrite Hf', Hf. split; [|done].
      rewrite <- Hf. apply eq_None_not_Some. done.
    + unfold raise in H. inversion H; subst.
      split; [congruence|]. split; [congruence|]. left. congruence.
  - apply (sound_run _ _ _ _ _
             (io_get_activity_streams (fun _ => True) _ (fun _ _ => I)
                (fun _ _ _ => I))) in Hj.
    destruct Hj as [Hs' Hf' Hc' _ _ _ _ _].
    split; [congruence|]. split; [congruence|]. left. congruence.
  - apply (sound_run _ _ _ _ _
             (io_get_activity_streams (fun _ => True) _ (fun _ _ => I)
                (fun _ _ _ => I))) in Hj.
    destruct Hj as [Hs' Hf' Hc' _ _ _ _ _].
    split; [congruence|]. split; [congruence|]. left. congruence.
Qed.

Lemma download_gpx_adds_one_file_witness :
  exists w',
    download_gpx 7 None None uneven_streams_world
      = (Ok "./data/gpx/Morning_Run.gpx", w')
    /\ config (settings w') = config (settings uneven_streams_world)
    /\ _gear_cache w' = _gear_cache uneven_streams_world
    /\ (files w' = files uneven_streams_world
        \/ exists p gpx,
             Ok "./data/gpx/Morning_Run.gpx" = Ok p
             /\ files uneven_streams_world !! p = None
             /\ files w' = <[p := gpx]> (files uneven_streams_world)).
Proof.
  eexists. split; [vm_compute; reflexivity|].
  eapply (download_gpx_adds_one_file 7 None None uneven_streams_world).
  vm_compute; reflexivity.
Defined.

(** ** Gear Resolver: the gear list and the gear map *)

Lemma cache_gears_mono gear_list cache k :
  is_Some (cache !! k) -> is_Some (cache_gears cache gear_list !! k).
Proof.
  revert cache. induction gear_list as [|g l IH]; intros cache Hk; [done|].
  simpl. apply IH. destruct (decide (Gear.id g = k)) as [->|Hne].
  - by rewrite lookup_insert_eq.
  - by rewrite lookup_insert_ne.
Qed.

Lemma cache_gears_cached gear_list cache :
  Forall (fun g => is_Some (cache_gears cache gear_list !! Gear.id g)) gear_list.
Proof.
  revert cache. induction gear_list as [|g l IH]; intros cache; [done|].
  constructor; [|apply IH].
  simpl. apply cache_gears_mono. by rewrite lookup_insert_eq.
Qed.

Lemma collect_gear_ids_total items gear_ids :
  collect_gear_ids items gear_ids <> Diverge.
Proof.
  revert gear_ids. induction items as [|[a|] items IH]; intros gear_ids; simpl;
    [done| |done].
  destruct (Activity.gear_id a); apply IH.
Qed.

Lemma fetch_gear_list_run gear_ids gear_list w :
  exists new w',
    fetch_gear_list gear_ids gear_list w = (Ok (gear_list ++ new), w')
    /\ _gear_cache w' = cache_gears (_gear_cache w) new
    /\ config (settings w') = config (settings w)
    /\ files w' = files w.
Proof.
  revert gear_list w. induction gear_ids as [|gear_id ids IH]; intros acc w; simpl.
  - exists [], w. by rewrite app_nil_r.
  - destruct (get_gear_by_id_swallows gear_id w) as (r & w1 & Hr & Hc & _).
    pose proof (sound_run _ _ _ _ _ (io_get_gear_by_id gear_id) Hr) as Hstep.
    destruct Hstep as [Hs Hf _ _ _ _ _ _].
    rewrite (bind_run_ok _ _ _ _ _ Hr). destruct r as [g|].
    + unfold bind at 1, modify at 1.
      destruct (IH (acc ++ [g])
                  (with_gear_cache (<[Gear.id g := Gear.name g]> (_gear_cache w1)) w1))
        as (new & w' & Hrun & Hcache & Hs' & Hf').
      exists (g :: new), w'. rewrite Hrun, <- app_assoc. simpl.
      split; [done|]. split; [by rewrite Hcache, <- Hc|].
      split; [simpl in Hs'; congruence|by rewrite Hf', <- Hf].
    + destruct (IH acc w1) as (new & w' & Hrun & Hcache & Hs' & Hf').
      exists new, w'. rewrite Hrun. split; [done|].
      split; [by rewrite Hcache, Hc|]. split; congruence.
Qed.

Lemma get_athlete_gear_run w :
  exists gear_list w',
    get_athlete_gear w = (Ok gear_list, w')
    /\ _gear_cache w' = cache_gears (_gear_cache w) gear_list
    /\ config (settings w') = config (settings w)
    /\ files w' = files w
    /\ forall e w1,
         _make_request "GET" "/athlete/activities" [("per_page", PInt 200)] w
           = (Raise e, w1) ->
         gear_list = [] /\ w' = w1.
Proof.
  unfold get_athlete_gear, try_except. unfold bind at 1.
  destruct (_make_request "GET" "/athlete/activities" [("per_page", PInt 200)] w)
    as [[j|e|] w1] eqn:Hreq.
  - pose proof (sound_run _ _ _ _ _
                  (io_make_request (fun _ => True) _ _ _ (fun _ _ => I)
                     (fun _ _ _ => I)) Hreq) as [Hs Hf Hc _ _ _ _ _].
    unfold bind at 1, lift at 1.
    destruct (collect_gear_ids (json_items j) ∅) as [ids|e|] eqn:Hids.
    + unfold bind at 1, gets at 1.
      destruct (fetch_gear_list_run (set_order w1 ids) [] w1)
        as (new & w' & Hrun & Hcache & Hs' & Hf').
      rewrite Hrun. exists new, w'. split; [done|].
      split; [by rewrite Hcache, Hc|]. split; [congruence|].
      split; [congruence|]. intros ? ? [=].
    + exists [], w1. split; [done|]. split; [done|]. split; [done|].
      split; [done|]. intros ? ? [=].
    + by destruct (collect_gear_ids_total (json_items j) ∅).
  - pose proof (sound_run _ _ _ _ _
                  (io_make_request (fun _ => True) _ _ _ (fun _ _ => I)
                     (fun _ _ _ => I)) Hreq) as [Hs Hf Hc _ _ _ _ _].
    exists [], w1. split; [done|]. split; [done|]. split; [done|].
    split; [done|]. by intros ? ? [= _ ->].
  - by destruct (sound_total _ _ w w1
                   (io_make_request (fun _ => True) "GET" "/athlete/activities"
                      [("per_page", PInt 200)] (fun _ _ => I) (fun _ _ _ => I))).
Qed.

(** X21.  [get_athlete_gear] never raises.  It returns a list of gear and
    leaves the cache as the cache before with every returned gear's name
    stored under its id, in the order of the list, so each returned gear
    is cached; the settings other than the three tokens and the track
    files stay.  When the request for the activities fails, the list is
    empty and nothing else is sent. *)
Theorem get_athlete_gear_never_raises w :
  exists gear_list w',
    get_athlete_gear w = (Ok gear_list, w')
    /\ _gear_cache w' = cache_gears (_gear_cache w) gear_list
    /\ Forall (fun g => is_Some (_gear_cache w' !! Gear.id g)) gear_list
    /\ config (settings w') = config (settings w)
    /\ files w' = files w
    /\ forall e w1,
         _make_request "GET" "/athlete/activities" [("per_page", PInt 200)] w
           = (Raise e, w1) ->
         gear_list = [] /\ w' = w1.
Proof.
  destruct (get_athlete_gear_run w) as (gl & w' & Hrun & Hc & Hs & Hf & Hfail).
  exists gl, w'. split; [done|]. split; [done|].
  split; [rewrite Hc; apply cache_gears_cached|done].
Qed.

Lemma get_athlete_gear_never_raises_witness :
  exists w',
    get_athlete_gear geared_page_world = (Ok [shoes], w')
    /\ _gear_cache w' = {[ "g1" := "Shoes" ]}
    /\ length (log w') = 2%nat.
Proof.
  destruct (get_athlete_gear_never_raises geared_page_world)
    as (gl & w' & Hrun & Hc & _).
  assert (get_athlete_gear geared_page_world
          = (Ok [shoes], (get_athlete_gear geared_page_world).2)) as Hrun'
    by (vm_compute; reflexivity).
  rewrite Hrun' in Hrun. injection Hrun as <- <-.
  eexists. split; [exact Hrun'|]. split; [|vm_compute; reflexivity].
  rewrite Hc. vm_compute. reflexivity.
Defined.

(** X22.  [_get_gear_map] never raises and returns the gear cache as it
    is once it is done.  A cache that holds anything is returned as it
    is, with nothing sent; an empty cache is filled by
    [get_athlete_gear] first. *)
Theorem get_gear_map_returns_cache w :
  exists w',
    _get_gear_map w = (Ok (_gear_cache w'), w')
    /\ (_gear_cache w <> ∅ -> w' = w)
    /\ (_gear_cache w = ∅ ->
        exists gear_list,
          get_athlete_gear w = (Ok gear_list, w')
          /\ _gear_cache w' = cache_gears ∅ gear_list).
Proof.
  unfold _get_gear_map. unfold bind at 1, gets at 1.
  case_bool_decide as Hempty.
  - destruct (get_athlete_gear_run w) as (gl & w' & Hrun & Hc & _).
    exists w'. unfold bind at 1. unfold bind at 1. rewrite Hrun.
    split; [done|]. split; [done|]. intros _. exists gl. by rewrite <- Hempty.
  - exists w. split; [done|]. split; [done|]. done.
Qed.

Lemma get_gear_map_returns_cache_witness :
  _get_gear_map (cached_gear_world [])
  = (Ok {[ "g1" := "Shoes" ]}, cached_gear_world []).
Proof.
  destruct (get_gear_map_returns_cache (cached_gear_world []))
    as (w' & Hrun & Hsame & _).
  rewrite Hrun, Hsame; [reflexivity|].
  vm_compute. intros H. discriminate H.
Defined.

(** ** The route [GET /activities]: pages *)

Lemma py_slice_window {A} (l : list A) (start stop : Z) :
  0 <= start -> start <= stop ->
  py_slice l start stop = take (Z.to_nat (stop - start)) (drop (Z.to_nat start) l).
Proof.
  intros H0 Hle. unfold py_slice, slice_index.
  destruct (Z.ltb_spec start 0) as [?|_]; [lia|].
  destruct (Z.ltb_spec stop 0) as [?|_]; [lia|].
  destruct (Z_le_gt_dec (Z.of_nat (length l)) start) as [Hout|Hin].
  - rewrite !(drop_ge l) by lia. by rewrite !take_nil.
  - rewrite (Z.min_l start) by lia.
    destruct (Z_le_gt_dec stop (Z.of_nat (length l))) as [Hs|Hs].
    + by rewrite (Z.min_l stop) by lia.
    + rewrite (Z.min_r stop) by lia.
      rewrite !take_ge; [done|rewrite length_drop; lia..].
Qed.

Lemma paginate_items fetched page per_page :
  1 <= page -> 0 <= per_page ->
  routes.items (routes.paginate fetched page per_page)
  = take (Z.to_nat per_page) (drop (Z.to_nat (page - 1) * Z.to_nat per_page) fetched).
Proof.
  intros Hp Hpp. unfold routes.paginate. simpl.
  rewrite py_slice_window by nia. f_equal; [f_equal; lia|].
  f_equal. rewrite Z2Nat.inj_mul by lia. done.
Qed.

Lemma concat_chunks {A} (k m : nat) (l : list A) :
  (length l <= m * k)%nat ->
  concat ((fun i => take k (drop (i * k) l)) <$> seq 0 m) = l.
Proof.
  revert l. induction m as [|m IH]; intros l Hl.
  - destruct l; [done|simpl in Hl; lia].
  - simpl. rewrite <- fmap_S_seq, <- list_fmap_compose.
    rewrite <- (take_drop k l) at 2. f_equal.
    rewrite <- (IH (drop k l)) by (rewrite length_drop; lia).
    f_equal. apply list_fmap_ext. intros _ i _. simpl.
    by rewrite drop_drop.
Qed.

Lemma total_pages_ceiling n per_page :
  1 <= per_page -> 0 <= n ->
  let pages := (n + per_page - 1) / per_page in
  (pages - 1) * per_page < n <= pages * per_page \/ (n = 0 /\ pages = 0).
Proof.
  intros Hpp Hn pages.
  pose proof (Z.div_mod (n + per_page - 1) per_page ltac:(lia)) as Hdm.
  pose proof (Z.mod_pos_bound (n + per_page - 1) per_page ltac:(lia)) as Hm.
  fold pages in Hdm.
  destruct (decide (n = 0)) as [->|Hne].
  - right. split; [done|]. nia.
  - left. nia.
Qed.

(** X23.  The pages of the route partition the list: for a page size of
    at least 1, the items of pages 1 to [total_pages], one after the
    other, are the whole list in its order, nothing lost or repeated. *)
Theorem paginate_pages_cover fetched per_page :
  1 <= per_page ->
  concat ((fun p => routes.items (routes.paginate fetched p per_page))
            <$> seqZ 1 (routes.total_pages (routes.paginate fetched 1 per_page)))
  = fetched.
Proof.
  intros Hpp. unfold seqZ. rewrite <- list_fmap_compose.
  rewrite <- (concat_chunks (Z.to_nat per_page)
                (Z.to_nat (routes.total_pages (routes.paginate fetched 1 per_page)))
                fetched) at 2.
  - f_equal. apply list_fmap_ext. intros _ i _. unfold compose.
    rewrite paginate_items by lia. do 3 f_equal. lia.
  - simpl.
    destruct (total_pages_ceiling (Z.of_nat (length fetched)) per_page) as [H|[H H']];
      [lia|lia| |].
    + nia.
    + rewrite H'. simpl. lia.
Qed.

Lemma paginate_pages_cover_witness :
  concat ((fun p => routes.items
                      (routes.paginate [example_run 2 30 None; example_run 3 20 None;
                                        example_run 1 10 None] p 2))
            <$> [1; 2])
  = [example_run 2 30 None; example_run 3 20 None; example_run 1 10 None].
Proof.
  apply (paginate_pages_cover
           [example_run 2 30 None; example_run 3 20 None; example_run 1 10 None] 2).
  lia.
Defined.

(** X24.  With a page number and a page size of at least 1,
    [total_pages] is the number of items divided by the page size,
    rounded up; every page before the last holds exactly [per_page]
    items, the last page holds at least one and at most [per_page], and
    a page after the last is empty, not an error. *)
Theorem paginate_page_sizes fetched page per_page :
  1 <= page -> 1 <= per_page ->
  let r := routes.paginate fetched page per_page in
  let size := Z.of_nat (length (routes.items r)) in
  routes.total r = Z.of_nat (length fetched)
  /\ (routes.total_pages r - 1) * per_page < routes.total r + 1
       <= routes.total_pages r * per_page + 1
  /\ (page < routes.total_pages r -> size = per_page)
  /\ (page = routes.total_pages r -> 1 <= size <= per_page)
  /\ (routes.total_pages r < page -> routes.items r = []).
Proof.
  intros Hp Hpp r size. unfold size, r. rewrite paginate_items by lia.
  simpl routes.total. simpl routes.total_pages.
  pose proof (total_pages_ceiling (Z.of_nat (length fetched)) per_page
                ltac:(lia) ltac:(lia)) as Hceil. simpl in Hceil.
  set (pages := (Z.of_nat (length fetched) + per_page - 1) / per_page) in *.
  split; [done|]. split; [destruct Hceil as [H|[H H']]; [lia|rewrite H'; lia]|].
  rewrite length_take, length_drop.
  assert (Z.of_nat (Z.to_nat (page - 1) * Z.to_nat per_page) = (page - 1) * per_page)
    as Hstart by (by rewrite Nat2Z.inj_mul, !Z2Nat.id by lia).
  split; [|split].
  - intros Hlt. destruct Hceil as [H|[H H']]; [|lia].
    assert ((page - 1) * per_page + per_page <= (pages - 1) * per_page) by nia.
    lia.
  - intros ->. destruct Hceil as [H|[H H']]; [|lia]. lia.
  - intros Hgt.
    assert (pages * per_page <= (page - 1) * per_page) by nia.
    rewrite drop_ge; [by rewrite take_nil|].
    destruct Hceil as [H'|[H' H'']]; lia.
Qed.

Lemma paginate_page_sizes_witness :
  routes.paginate [example_run 2 30 None; example_run 3 20 None;
                   example_run 1 10 None] 2 2
  = routes.mk_page [example_run 1 10 None] 3 2 2 2
  /\ routes.items (routes.paginate [example_run 2 30 None; example_run 3 20 None;
                                    example_run 1 10 None] 3 2) = [].
Proof.
  split; [reflexivity|].
  apply (paginate_page_sizes
           [example_run 2 30 None; example_run 3 20 None; example_run 1 10 None] 3 2);
    [lia|lia|]. vm_compute. reflexivity.
Defined.

Lemma StronglySorted_sublist {A} (R : relation A) (l1 l2 : list A) :
  l1 `sublist_of` l2 -> StronglySorted R l2 -> StronglySorted R l1.
Proof.
  induction 1 as [|x l1 l2 Hsub IH|x l1 l2 Hsub IH]; intros Hs.
  - constructor.
  - apply StronglySorted_inv in Hs as [Hs Hx]. constructor; [by apply IH|].
    apply Forall_forall. intros y Hy. rewrite Forall_forall in Hx.
    apply Hx. by eapply elem_of_sublist.
  - apply StronglySorted_inv in Hs as [Hs _]. by apply IH.
Qed.

(** X25.  When the route [GET /activities] returns, the page number is
    at least 1 and the page size between 1 and 200; the page holds at
    most [per_page] activities, most recent first, and when [after] is
    given every one of them started strictly after it by epoch
    timestamp; [total] counts at least the activities of the page, and
    the page number and the page size are echoed. *)
Theorem route_get_activities_page before after page per_page activity_type
    has_gear gear_id w resp w' :
  routes.get_activities before after page per_page activity_type has_gear gear_id w
    = (routes.Returned resp, w') ->
  1 <= page /\ 1 <= per_page <= 200
  /\ routes.page resp = page /\ routes.per_page resp = per_page
  /\ Z.of_nat (length (routes.items resp)) <= per_page
  /\ Z.of_nat (length (routes.items resp)) <= routes.total resp
  /\ newest_first (routes.items resp)
  /\ (forall cutoff, after = Some cutoff ->
        Forall (started_after (mktime w') cutoff) (routes.items resp)).
Proof.
  unfold routes.get_activities, routes.guarded.
  match goal with |- context [match ?m w with _ => _ end] =>
    destruct (m w) as [[resp0|e|] w1] eqn:Hbody end;
    [|by destruct e|done].
  intros [= -> ->].
  apply bind_ok_inv in Hbody as (f & w0 & Hvalid & Hbody).
  apply lift_inv in Hvalid as [Hvalid ->].
  destruct (ActivityFilter.valid _) eqn:Hv; [|discriminate].
  injection Hvalid as ->.
  apply bind_ok_inv in Hbody as (l & w2 & Hget & Hbody).
  apply bind_ok_inv in Hbody as (mk & w3 & Hmk & Hbody).
  apply gets_inv in Hmk as [[= ->] ->]. injection Hbody as <- <-.
  unfold ActivityFilter.valid in Hv. simpl in Hv.
  apply andb_prop in Hv as [Hv H200]. apply andb_prop in Hv as [Hpage Hpp].
  apply Z.leb_le in H200, Hpage, Hpp.
  assert (newest_first l) as Hsorted.
  { apply get_activities_ok_enriched in Hget as (? & ? & ? & _ & _ & Hget).
    by eapply filter_and_sort_ok. }
  set (matching := match after with
                   | Some a => filter _ l
                   | None => l
                   end).
  assert (matching `sublist_of` l) as Hsub.
  { unfold matching. destruct after; [apply sublist_filter|done]. }
  assert (routes.items (routes.paginate matching page per_page)
            `sublist_of` matching) as Hitems.
  { rewrite paginate_items by lia.
    etrans; [apply sublist_take|apply sublist_drop]. }
  split; [done|]. split; [done|]. split; [done|]. split; [done|].
  split; [rewrite paginate_items by lia; rewrite length_take; lia|].
  split; [apply sublist_length in Hitems; simpl in *; lia|].
  split.
  - eapply StronglySorted_sublist; [|exact Hsorted]. by etrans.
  - intros cutoff ->. apply Forall_forall. intros a Ha.
    eapply elem_of_sublist in Ha; [|exact Hitems].
    unfold matching in Ha. by apply list_elem_of_filter in Ha as [Ha _].
Qed.

Lemma route_get_activities_page_witness :
  exists w',
    routes.get_activities None (Some (utc 5)) 2 2 None None None unsorted_page_world
      = (routes.Returned (routes.mk_page [example_run 1 10 None] 3 2 2 2), w')
    /\ newest_first [example_run 1 10 None]
    /\ Forall (started_after (mktime w') (utc 5)) [example_run 1 10 None].
Proof.
  eexists. split; [vm_compute; reflexivity|].
  edestruct (route_get_activities_page None (Some (utc 5)) 2 2 None None None
               unsorted_page_world) as (_ & _ & _ & _ & _ & _ & Hs & Ha);
    [vm_compute; reflexivity|].
  split; [exact Hs|]. exact (Ha _ eq_refl).
Defined.
